(** * Real-time synchronisation core of the MetaGPT web dashboard

    A shallow embedding of the front-end state engine:

    - [stores/notification.js]      the notification queue and its timers,
    - [stores/projects.js]          the project state store,
    - [composables/useWebSocket.js] the connection manager and event router,
    - [components/LLMPanel.vue]     the detail cursor over recorded LLM calls,

    followed by the properties the specification states about them.

    Conventions.  A pinia store or a Vue component is a record of its refs and
    every function of the source is a function on that record.  Objects the
    code spreads or builds field by field (messages, log entries, feed
    records) are association lists from field names to JavaScript values;
    entities the code reads by fixed field names (projects, employees,
    notifications) are records.  A field the source tests for presence is an
    [option].  [async] functions are terms of a small resumption monad whose
    only suspension points are the network calls. *)

From Stdlib Require Import ZArith QArith String Ascii List Lia DecimalString.
From stdpp Require Import base list strings.

Local Open Scope string_scope.
Local Open Scope Z_scope.

#[local] Set Warnings "-register-all".

(** ** JavaScript values *)

Inductive value : Type :=
| VUndefined
| VNull
| VBool (b : bool)
| VNum (q : Q)
| VStr (s : string)
| VArr (items : list value)
| VObj (fields : list (string * value)).

(** A plain object, in insertion order. *)
Definition obj : Type := list (string * value).

(** ToBoolean. *)
Definition truthy (v : value) : bool :=
  match v with
  | VUndefined | VNull => false
  | VBool b => b
  | VNum q => negb (Qeq_bool q 0)
  | VStr s => negb (String.eqb s "")
  | VArr _ | VObj _ => true
  end.

(** [a || b]. *)
Definition js_or (a b : value) : value := if truthy a then a else b.

(** [o.k]; a missing property reads as [undefined]. *)
Fixpoint get (k : string) (o : obj) : value :=
  match o with
  | [] => VUndefined
  | (k', v) :: o' => if String.eqb k k' then v else get k o'
  end.

(** [{...o, k: v}]: an existing key keeps its place, a new one goes last. *)
Fixpoint set (k : string) (v : value) (o : obj) : obj :=
  match o with
  | [] => [(k, v)]
  | (k', v') :: o' =>
      if String.eqb k k' then (k, v) :: o' else (k', v') :: set k v o'
  end.

(** [s || d] on an optional string: absent and empty are both falsy. *)
Definition str_or (s : option string) (d : string) : string :=
  match s with
  | Some x => if String.eqb x "" then d else x
  | None => d
  end.

(** [Object.hasOwn(o, k)]. *)
Definition has_own (k : string) (o : obj) : bool :=
  existsb (fun kv => String.eqb k (fst kv)) o.

(** Built-ins of the platform the code calls but does not define. *)
Class Host := {
  (** [new Date(ms).toISOString()] *)
  toISOString : Z -> string;
  (** the n-th draw of [Math.random()] *)
  Math_random : nat -> Q;
  (** [JSON.stringify(v, null, 2)], as a template literal shows it *)
  JSON_stringify : value -> string;
  (** [x + y] on Numbers: the double nearest to the sum *)
  Number_add : Q -> Q -> Q;
  (** Number::toString *)
  Number_toString : Q -> string
}.

(** ToString, as a template literal and [new Error] apply it to a value that
    [JSON.parse] built.  [None] is a TypeError: an object with an own
    [toString] property has no callable [toString] (a parsed value is never
    a function) and [Object.prototype.valueOf] gives back the object, so
    there is no primitive to convert.  An array is joined with commas,
    [null] and [undefined] elements as the empty string. *)
Fixpoint ToString `{Host} (v : value) : option string :=
  match v with
  | VUndefined => Some "undefined"
  | VNull => Some "null"
  | VBool b => Some (if b then "true" else "false")
  | VNum q => Some (Number_toString q)
  | VStr s => Some s
  | VArr items =>
      match
        (fix each (l : list value) : option (list string) :=
           match l with
           | [] => Some []
           | x :: l' =>
               match
                 match x with
                 | VUndefined | VNull => Some ""
                 | _ => ToString x
                 end,
                 each l'
               with
               | Some s, Some ss => Some (s :: ss)
               | _, _ => None
               end
           end) items
      with
      | Some ss => Some (String.concat "," ss)
      | None => None
      end
  | VObj fields =>
      if has_own "toString" fields then None else Some "[object Object]"
  end.

(** ** Data model *)

Module Employee.
Record t := mk {
  name : string;
  profile : string;
  is_idle : bool;
  current_action : string
}.
End Employee.

Module Project.
Record t := mk {
  id : string;
  name : string;
  status : string;
  total_cost : Q;
  employees : option (list Employee.t);
  output_path : option string;
  idea : string;
  investment : Q;
  n_round : Z
}.

Definition with_status (s : string) (p : t) : t :=
  mk (id p) (name p) s (total_cost p) (employees p) (output_path p)
     (idea p) (investment p) (n_round p).

Definition with_total_cost (c : Q) (p : t) : t :=
  mk (id p) (name p) (status p) c (employees p) (output_path p)
     (idea p) (investment p) (n_round p).

Definition with_employees (es : option (list Employee.t)) (p : t) : t :=
  mk (id p) (name p) (status p) (total_cost p) es (output_path p)
     (idea p) (investment p) (n_round p).

Definition with_output_path (o : option string) (p : t) : t :=
  mk (id p) (name p) (status p) (total_cost p) (employees p) o
     (idea p) (investment p) (n_round p).
End Project.

Module Notification.
Record t := mk {
  id : nat;
  message : string;
  type : string;
  timestamp : Z
}.
End Notification.

(** A pending [setTimeout(() => remove(target), delay)]. *)
Record Timer := mkTimer {
  delay : Z;
  armed_at : Z;
  target : nat
}.

(** The refs of [useProjectStore]. *)
Record Store := mkStore {
  projects : list Project.t;
  currentProjectId : option string;
  currentProject : option Project.t;
  loading : bool;
  messages : list obj;
  thinkingLogs : list obj;
  llmCalls : list obj;
  toolUsages : list obj
}.

(** The page: the clock, the random source, the armed timers, the
    notification store ([notifications], [idCounter]) and the project store. *)
Record World := mkWorld {
  now : Z;
  draws : nat;
  timers : list Timer;
  notifications : list Notification.t;
  idCounter : nat;
  store : Store
}.

Definition set_projects (v : list Project.t) (s : Store) : Store :=
  mkStore v (currentProjectId s) (currentProject s) (loading s)
          (messages s) (thinkingLogs s) (llmCalls s) (toolUsages s).

Definition set_currentProjectId (v : option string) (s : Store) : Store :=
  mkStore (projects s) v (currentProject s) (loading s)
          (messages s) (thinkingLogs s) (llmCalls s) (toolUsages s).

Definition set_currentProject (v : option Project.t) (s : Store) : Store :=
  mkStore (projects s) (currentProjectId s) v (loading s)
          (messages s) (thinkingLogs s) (llmCalls s) (toolUsages s).

Definition set_loading (v : bool) (s : Store) : Store :=
  mkStore (projects s) (currentProjectId s) (currentProject s) v
          (messages s) (thinkingLogs s) (llmCalls s) (toolUsages s).

Definition set_messages (v : list obj) (s : Store) : Store :=
  mkStore (projects s) (currentProjectId s) (currentProject s) (loading s)
          v (thinkingLogs s) (llmCalls s) (toolUsages s).

Definition set_thinkingLogs (v : list obj) (s : Store) : Store :=
  mkStore (projects s) (currentProjectId s) (currentProject s) (loading s)
          (messages s) v (llmCalls s) (toolUsages s).

Definition set_llmCalls (v : list obj) (s : Store) : Store :=
  mkStore (projects s) (currentProjectId s) (currentProject s) (loading s)
          (messages s) (thinkingLogs s) v (toolUsages s).

Definition set_toolUsages (v : list obj) (s : Store) : Store :=
  mkStore (projects s) (currentProjectId s) (currentProject s) (loading s)
          (messages s) (thinkingLogs s) (llmCalls s) v.

Definition on_store (f : Store -> Store) (w : World) : World :=
  mkWorld (now w) (draws w) (timers w) (notifications w) (idCounter w)
          (f (store w)).

Definition set_draws (n : nat) (w : World) : World :=
  mkWorld (now w) n (timers w) (notifications w) (idCounter w) (store w).

Definition set_now (t : Z) (w : World) : World :=
  mkWorld t (draws w) (timers w) (notifications w) (idCounter w) (store w).

Definition set_timers (ts : list Timer) (w : World) : World :=
  mkWorld (now w) (draws w) ts (notifications w) (idCounter w) (store w).

Definition set_notifications (ns : list Notification.t) (w : World) : World :=
  mkWorld (now w) (draws w) (timers w) ns (idCounter w) (store w).

Definition set_idCounter (n : nat) (w : World) : World :=
  mkWorld (now w) (draws w) (timers w) (notifications w) n (store w).

Definition emptyStore : Store := mkStore [] None None false [] [] [] [].

(** The page as the modules leave it when they are first imported. *)
Definition initial (t0 : Z) : World := mkWorld t0 0%nat [] [] 0%nat emptyStore.

(** ** stores/notification.js *)

Module useNotification.

(** [remove(id)]: [findIndex] then [splice(index, 1)]. *)
Definition remove (id : nat) (w : World) : World :=
  match list_find (fun n => Notification.id n = id) (notifications w) with
  | Some (index, _) => set_notifications (delete index (notifications w)) w
  | None => w
  end.

(** [add(message, type = 'info', duration = 4000)].  An omitted argument is
    [None]; the new id is returned with the new page. *)
Definition add (message : string) (type : option string)
    (duration : option Z) (w : World) : nat * World :=
  let type := default "info" type in
  let duration := default 4000 duration in
  let id := S (idCounter w) in
  let w := set_idCounter id w in
  let w :=
    set_notifications
      (notifications w ++ [Notification.mk id message type (now w)]) w in
  let w :=
    if 0 <? duration
    then set_timers (timers w ++ [mkTimer duration (now w) id]) w
    else w in
  (id, w).

Definition success (message : string) (duration : option Z) :=
  add message (Some "success") duration.

(** [error(message, duration = 6000)]. *)
Definition error (message : string) (duration : option Z) :=
  add message (Some "error") (Some (default 6000 duration)).

Definition warning (message : string) (duration : option Z) :=
  add message (Some "warning") duration.

Definition info (message : string) (duration : option Z) :=
  add message (Some "info") duration.

End useNotification.

(** *** The timer queue

    Time passes between handlers only.  When the clock reaches [armed_at]
    plus the delay [setTimeout] kept, the timer's callback runs once and the
    timer is gone.
    The callbacks of this program are all [remove(target)]. *)

(** The delay [setTimeout] keeps of its second argument: the number as a
    WebIDL [long], that is modulo [2^32] in the signed range, and 0 when
    that is negative. *)
Definition timeout (d : Z) : Z :=
  Z.max 0 ((d + 2147483648) mod 4294967296 - 2147483648).

Definition due (t : Z) (tm : Timer) : bool :=
  armed_at tm + timeout (delay tm) <=? t.

(** Run the callbacks of the timers [tms]. *)
Definition fire (tms : list Timer) (w : World) : World :=
  fold_left (fun w tm => useNotification.remove (target tm) w) tms w.

(** Let [dt] milliseconds pass and run every timer that is due by then. *)
Definition elapse (dt : Z) (w : World) : World :=
  let t := now w + dt in
  let fired := filter (fun tm => due t tm = true) (timers w) in
  let kept := filter (fun tm => due t tm = false) (timers w) in
  fire fired (set_timers kept (set_now t w)).

(** ** Asynchronous functions

    An [async] function runs like any other until it awaits the network; it
    resumes, on a later turn, with the settled reply.  Awaiting a promise of
    the page's own suspends for microtasks only, between which no event
    handler can run, so those awaits are not suspension points here. *)

(** [new Error(message)], or a TypeError of the engine, whose message is the
    engine's own. *)
Inductive JsError :=
| mkError (message : string)
| TypeError.

(** How a call that does not await ends. *)
Inductive completion :=
| returned
| threw (e : JsError).

Module Async.

(** A settled promise. *)
Inductive settled (A : Type) : Type :=
| fulfilled (a : A)
| rejected (e : JsError).
Arguments fulfilled {A} a.
Arguments rejected {A} e.

Section Proc.
(** The state an async function works on, the requests it can send and
    the type of the reply to each. *)
Context {S : Type} {Req : Type} {Resp : Req -> Type}.

Inductive proc (A : Type) : Type :=
| Return (a : A)
| Throw (e : JsError)
| Read (k : S -> proc A)
| Modify (f : S -> S) (k : proc A)
| Await (rq : Req) (k : settled (Resp rq) -> proc A).
Arguments Return {A} a.
Arguments Throw {A} e.
Arguments Read {A} k.
Arguments Modify {A} f k.
Arguments Await {A} rq k.

Fixpoint bind {A B} (p : proc A) (f : A -> proc B) : proc B :=
  match p with
  | Return a => f a
  | Throw e => Throw e
  | Read k => Read (fun s => bind (k s) f)
  | Modify g k => Modify g (bind k f)
  | Await rq k => Await rq (fun r => bind (k r) f)
  end.

(** [try { p } catch (error) { h error }]. *)
Fixpoint try_catch {A} (p : proc A) (h : JsError -> proc A) : proc A :=
  match p with
  | Return a => Return a
  | Throw e => h e
  | Read k => Read (fun s => try_catch (k s) h)
  | Modify g k => Modify g (try_catch k h)
  | Await rq k => Await rq (fun r => try_catch (k r) h)
  end.

(** [try { p } finally { s = f s }]: the block runs on both exits and
    keeps the completion of [p]. *)
Fixpoint try_finally {A} (p : proc A) (f : S -> S) : proc A :=
  match p with
  | Return a => Modify f (Return a)
  | Throw e => Modify f (Throw e)
  | Read k => Read (fun s => try_finally (k s) f)
  | Modify g k => Modify g (try_finally k f)
  | Await rq k => Await rq (fun r => try_finally (k r) f)
  end.

(** [await rq]: the reply, or the rejection rethrown. *)
Definition await (rq : Req) : proc (Resp rq) :=
  Await rq (fun r =>
    match r with
    | fulfilled a => Return a
    | rejected e => Throw e
    end).

(** A statement on the state. *)
Definition exec (f : S -> S) : proc unit := Modify f (Return tt).

(** Where a call stands once it has returned to its caller. *)
Inductive promise (A : Type) : Type :=
| Settled (r : settled A)
| Pending (rq : Req) (k : settled (Resp rq) -> proc A).
Arguments Settled {A} r.
Arguments Pending {A} rq k.

(** Call [p]: run it up to its first suspension. *)
Fixpoint call {A} (p : proc A) (s : S) : promise A * S :=
  match p with
  | Return a => (Settled (fulfilled a), s)
  | Throw e => (Settled (rejected e), s)
  | Read k => call (k s) s
  | Modify g k => call k (g s)
  | Await rq k => (Pending rq k, s)
  end.

(** A reply arrives for a pending call. *)
Definition resume {A} (pr : promise A) (reply : forall rq, settled (Resp rq))
    (s : S) : promise A * S :=
  match pr with
  | Settled r => (Settled r, s)
  | Pending rq k => call (k (reply rq)) s
  end.

(** Run [p] to completion.  [net n rq] is the reply to the request [rq]
    when it is the [n]-th the call awaits; [meanwhile n] is what the rest
    of the page did to the state during that wait. *)
Fixpoint run {A} (net : nat -> forall rq, settled (Resp rq))
    (meanwhile : nat -> S -> S) (n : nat) (p : proc A) (s : S)
    : settled A * S :=
  match p with
  | Return a => (fulfilled a, s)
  | Throw e => (rejected e, s)
  | Read k => run net meanwhile n (k s) s
  | Modify g k => run net meanwhile n k (g s)
  | Await rq k => run net meanwhile (Datatypes.S n) (k (net n rq)) (meanwhile n s)
  end.
End Proc.

Arguments proc : clear implicits.
Arguments promise : clear implicits.
Arguments Return {S Req Resp A} a.
Arguments Throw {S Req Resp A} e.
Arguments Read {S Req Resp A} k.
Arguments Modify {S Req Resp A} f k.
Arguments Await {S Req Resp A} rq k.
Arguments Settled {S Req Resp A} r.
Arguments Pending {S Req Resp A} rq k.

End Async.

Declare Scope proc_scope.
Delimit Scope proc_scope with proc.
Notation "x <- p ;; q" := (Async.bind p (fun x => q))
  (at level 100, p at next level, right associativity) : proc_scope.
Notation "p ;; q" := (Async.bind p (fun _ => q))
  (at level 100, right associativity) : proc_scope.

(** ** services/api.js *)

Module api.

(** The calls of the default export. *)
Inductive call : Type :=
| getProjects
| getProject (id : string)
| createProject (data : obj)
| updateProject (id : string) (data : obj)
| deleteProject (id : string)
| startProject (id : string)
| stopProject (id : string)
| getMessages (id : string).

(** What [response.json()] holds on success. *)
Definition reply (c : call) : Type :=
  match c with
  | getProjects => list Project.t
  | getProject _ | createProject _ => Project.t
  | _ => value
  end.

(** A non-2xx response: its status, and its body as [response.json()]
    parses it, [None] when it is not JSON. *)
Record failure := mkFailure {
  http_status : Z;
  body : option value
}.

(** [o.detail] of a parsed body: only an object can have the property, and
    reading it off [null] is a TypeError. *)
Definition detail_of (error : value) : option value :=
  match error with
  | VNull | VUndefined => None
  | VObj o => Some (get "detail" o)
  | _ => Some VUndefined
  end.

(** What [request] throws for a non-2xx response:
    [new Error(error.detail || `HTTP ${response.status}`)], with
    [{ detail: 'Unknown error' }] standing in for an unreadable body.
    [new Error] converts its argument with ToString. *)
Definition request_error `{Host} (f : failure) : JsError :=
  let error :=
    match body f with
    | None => VObj [("detail", VStr "Unknown error")]
    | Some v => v
    end in
  match detail_of error with
  | None => TypeError
  | Some detail =>
      match
        ToString
          (js_or detail
             (VStr ("HTTP "
                    ++ NilZero.string_of_int (Z.to_int (http_status f)))))
      with
      | Some message => mkError message
      | None => TypeError
      end
  end.

End api.

Definition action (A : Type) : Type := Async.proc World api.call api.reply A.

(** ** stores/projects.js *)

(** The payload of an [agent_status] frame. *)
Module AgentStatus.
Record t := mk {
  agent_name : string;
  status : string;
  action : option string
}.
End AgentStatus.

Definition nl : string := String (ascii_of_nat 10) "".

Module useProjectStore.
Import Async.
Local Open Scope proc_scope.

(** [useNotification().error(text)] and its siblings, as statements. *)
Definition notify_error (text : string) : action unit :=
  exec (fun w => snd (useNotification.error text None w)).
Definition notify_success (text : string) : action unit :=
  exec (fun w => snd (useNotification.success text None w)).
Definition notify_warning (text : string) : action unit :=
  exec (fun w => snd (useNotification.warning text None w)).

(** *** Actions *)

Definition fetchProjects : action unit :=
  exec (on_store (set_loading true)) ;;
  try_finally
    (try_catch
       (ps <- await api.getProjects ;;
        exec (on_store (set_projects ps)))
       (fun error => notify_error "加载项目列表失败"))
    (on_store (set_loading false)).

Definition fetchProject (id : string) : action unit :=
  exec (on_store (set_loading true)) ;;
  try_finally
    (try_catch
       (p <- await (api.getProject id) ;;
        exec (on_store (set_currentProject (Some p))) ;;
        exec (on_store (set_currentProjectId (Some id))))
       (fun error => notify_error "加载项目详情失败" ;; Throw error))
    (on_store (set_loading false)).

Definition createProject (projectData : obj) : action Project.t :=
  try_catch
    (project <- await (api.createProject projectData) ;;
     fetchProjects ;;
     notify_success "项目创建成功！" ;;
     Return project)
    (fun error => notify_error "创建项目失败" ;; Throw error).

Definition updateProject (id : string) (data : obj) : action unit :=
  try_catch
    (_ <- await (api.updateProject id data) ;;
     Read (fun w =>
       if decide (currentProjectId (store w) = Some id)
       then fetchProject id
       else Return tt))
    (fun error => notify_error "更新项目失败" ;; Throw error).

Definition deleteProject (id : string) : action unit :=
  try_catch
    (_ <- await (api.deleteProject id) ;;
     Read (fun w =>
       if decide (currentProjectId (store w) = Some id)
       then exec (on_store (set_currentProject None)) ;;
            exec (on_store (set_currentProjectId None))
       else Return tt) ;;
     fetchProjects ;;
     notify_success "项目已删除")
    (fun error => notify_error "删除项目失败" ;; Throw error).

Definition startProject (id : string) : action unit :=
  try_catch
    (_ <- await (api.startProject id) ;;
     notify_success "项目开始运行！")
    (fun error => notify_error "启动项目失败" ;; Throw error).

Definition stopProject (id : string) : action unit :=
  try_catch
    (_ <- await (api.stopProject id) ;;
     notify_warning "项目已停止")
    (fun error => notify_error "停止项目失败" ;; Throw error).

(** *** WebSocket message handlers *)

Section Handlers.
Context `{Host}.

(** [new Date().toISOString()]. *)
Definition now_iso (w : World) : value := VStr (toISOString (now w)).

(** [Date.now() + Math.random()], and the page after the draw. *)
Definition fresh_id (w : World) : value * World :=
  (VNum (Number_add (inject_Z (now w)) (Math_random (draws w))),
   set_draws (S (draws w)) w).

Definition addMessage (msg : obj) (w : World) : World :=
  let entry := set "timestamp" (js_or (get "timestamp" msg) (now_iso w)) msg in
  on_store (fun s => set_messages (messages s ++ [entry]) s) w.

Definition addThinking (log : obj) (w : World) : World :=
  let (id, w) := fresh_id w in
  let entry :=
    set "timestamp" (js_or (get "timestamp" log) (now_iso w))
      (set "id" id log) in
  on_store (fun s => set_thinkingLogs (thinkingLogs s ++ [entry]) s) w.

Definition addLLMCall (call : obj) (w : World) : World :=
  let (id, w) := fresh_id w in
  let entry :=
    set "timestamp" (js_or (get "timestamp" call) (now_iso w))
      (set "id" id call) in
  on_store (fun s => set_llmCalls (llmCalls s ++ [entry]) s) w.

(** The object literal [addToolUsage] passes to [addThinking]; [None] when
    one of its template literals throws. *)
Definition tool_log (usage : obj) : option obj :=
  match ToString (get "tool_name" usage),
        ToString (js_or (get "result" usage) (VStr "执行中...")) with
  | Some tool_name, Some result =>
      Some
        [ ("agent_name", get "agent_name" usage);
          ("action", VStr ("🔧 " ++ tool_name));
          ("content",
           VStr ("调用工具: " ++ tool_name ++ nl
                 ++ "参数: " ++ JSON_stringify (get "args" usage) ++ nl
                 ++ "结果: " ++ result));
          ("type", VStr "tool") ]
  | _, _ => None
  end.

(** The record is pushed first: when the log text cannot be built the call
    throws with the record already in [toolUsages] and no log entry. *)
Definition addToolUsage (usage : obj) (w : World) : World * completion :=
  let (id, w) := fresh_id w in
  let entry :=
    set "timestamp" (js_or (get "timestamp" usage) (now_iso w))
      (set "id" id usage) in
  let w := on_store (fun s => set_toolUsages (toolUsages s ++ [entry]) s) w in
  match tool_log usage with
  | Some log => (addThinking log w, returned)
  | None => (w, threw TypeError)
  end.
End Handlers.

Definition updateEmployees (employees : option (list Employee.t))
    (s : Store) : Store :=
  match currentProject s with
  | Some p => set_currentProject (Some (Project.with_employees employees p)) s
  | None => s
  end.

Definition updateStatus (status : string) (s : Store) : Store :=
  let s :=
    match currentProject s with
    | Some p => set_currentProject (Some (Project.with_status status p)) s
    | None => s
    end in
  match list_find (fun p => Some (Project.id p) = currentProjectId s)
                  (projects s) with
  | Some (i, project) =>
      set_projects (<[i := Project.with_status status project]> (projects s)) s
  | None => s
  end.

Definition updateCost (cost : Q) (s : Store) : Store :=
  let s :=
    match currentProject s with
    | Some p => set_currentProject (Some (Project.with_total_cost cost p)) s
    | None => s
    end in
  match list_find (fun p => Some (Project.id p) = currentProjectId s)
                  (projects s) with
  | Some (i, project) =>
      set_projects (<[i := Project.with_total_cost cost project]> (projects s)) s
  | None => s
  end.

(** The two assignments on the employee that [find] returned. *)
Definition set_employee_status (data : AgentStatus.t) (e : Employee.t)
    : Employee.t :=
  Employee.mk (Employee.name e) (Employee.profile e)
    (String.eqb (AgentStatus.status data) "idle")
    (str_or (AgentStatus.action data) "").

Definition updateEmployeeStatus (data : AgentStatus.t) (s : Store) : Store :=
  match currentProject s with
  | None => s
  | Some p =>
      match Project.employees p with
      | None => s
      | Some employees =>
          match list_find
                  (fun e => Employee.name e = AgentStatus.agent_name data)
                  employees with
          | Some (i, employee) =>
              set_currentProject
                (Some (Project.with_employees
                         (Some (<[i := set_employee_status data employee]>
                                  employees)) p)) s
          | None => s
          end
      end
  end.

Definition clearMessages (s : Store) : Store :=
  set_toolUsages [] (set_llmCalls [] (set_thinkingLogs [] (set_messages [] s))).

Definition reset (s : Store) : Store :=
  set_toolUsages []
    (set_llmCalls []
       (set_thinkingLogs []
          (set_messages []
             (set_currentProjectId None (set_currentProject None s))))).

(** Getters. *)
Definition hasProjects (s : Store) : bool :=
  (0 <? length (projects s))%nat.

Definition isRunning (s : Store) : bool :=
  match currentProject s with
  | Some p => String.eqb (Project.status p) "running"
  | None => false
  end.

End useProjectStore.

(** ** composables/useWebSocket.js *)

(** A frame after [JSON.parse], by its [type] tag, with the fields the
    router reads.  For the tags whose frame is stored whole ([message],
    [thinking]) or copied field by field ([llm_call], [tool_usage]), [data]
    is the parsed frame itself. *)
Inductive event : Type :=
| connected (employees : option (list Employee.t))
| message (data : obj)
| agent_status (data : AgentStatus.t)
| thinking (data : obj)
| llm_call (data : obj) (total_cost : option Q)
| tool_usage (data : obj)
| cost_update (total_cost : option Q)
| project_status (status text : string) (total_cost : option Q)
                 (output_path : option string)
| employees_updated (employees : option (list Employee.t))
| unknown (type : string).

(** [readyState] of a WebSocket. *)
Inductive readyState := CONNECTING | OPEN | CLOSING | CLOSED.

Record Socket := mkSocket {
  url : string;
  state : readyState
}.

(** [window.location]. *)
Record Location := mkLocation {
  protocol : string;
  host : string
}.

(** One instance of the composable: its two refs, and every socket it has
    constructed, by order of construction. *)
Record Conn := mkConn {
  sockets : list Socket;
  ws : option nat;
  isConnected : bool
}.

Module useWebSocket.
Import Async.

Definition fresh : Conn := mkConn [] None false.

(** [socket.close()]: starts the closing handshake of a socket that is
    not yet closing or closed. *)
Definition close (sk : Socket) : Socket :=
  match state sk with
  | CONNECTING | OPEN => mkSocket (url sk) CLOSING
  | CLOSING | CLOSED => sk
  end.

Definition disconnect (c : Conn) : Conn :=
  match ws c with
  | Some i =>
      mkConn (alter close i (sockets c)) None false
  | None => mkConn (sockets c) None false
  end.

Definition connect (loc : Location) (projectId : string) (c : Conn) : Conn :=
  let c := disconnect c in
  let protocol :=
    if String.eqb (protocol loc) "https:" then "wss:" else "ws:" in
  let wsUrl := protocol ++ "//" ++ host loc ++ "/ws/" ++ projectId in
  mkConn (sockets c ++ [mkSocket wsUrl CONNECTING])
         (Some (length (sockets c))) (isConnected c).

(** What the transport does to the [i]-th socket; each runs the handler
    [connect] attached to that socket. *)
Definition onopen (i : nat) (c : Conn) : Conn :=
  match sockets c !! i with
  | Some (mkSocket u CONNECTING) =>
      mkConn (<[i := mkSocket u OPEN]> (sockets c)) (ws c) true
  | _ => c
  end.

Definition onclose (i : nat) (c : Conn) : Conn :=
  match sockets c !! i with
  | Some (mkSocket u CLOSED) => c
  | Some (mkSocket u _) =>
      mkConn (<[i := mkSocket u CLOSED]> (sockets c)) (ws c) false
  | None => c
  end.

(** [onerror] only logs. *)
Definition onerror (i : nat) (c : Conn) : Conn := c.

(** The peer starts the closing handshake of the [i]-th socket: its
    [readyState] becomes [CLOSING] in a task of its own, before the close
    event; no handler runs. *)
Definition peer_closes (i : nat) (c : Conn) : Conn :=
  match sockets c !! i with
  | Some (mkSocket u OPEN) =>
      mkConn (<[i := mkSocket u CLOSING]> (sockets c)) (ws c) (isConnected c)
  | _ => c
  end.

(** [send(data)] goes out only through a socket held while connected. *)
Definition send (c : Conn) : option nat :=
  match ws c with
  | Some i => if isConnected c then Some i else None
  | None => None
  end.

(** [if (projectStore.currentProject) currentProject.output_path = path]. *)
Definition assign_output_path (path : string) (s : Store) : Store :=
  match currentProject s with
  | Some p =>
      set_currentProject (Some (Project.with_output_path (Some path) p)) s
  | None => s
  end.

Section Router.
Context `{Host}.
Import useProjectStore.

(** The object literal the router passes to [addToolUsage]. *)
Definition tool_usage_record (data : obj) : obj :=
  [ ("agent_name", get "agent_name" data);
    ("tool_name", get "tool_name" data);
    ("args", get "args" data);
    ("result", get "result" data) ].

(** How a call of the router ends.  [addToolUsage] is the one callee that
    can throw, and what it throws leaves [handleMessage] as it is. *)
Definition handleMessage_completion (data : event) (w : World) : completion :=
  match data with
  | tool_usage data => snd (addToolUsage (tool_usage_record data) w)
  | _ => returned
  end.

(** The router: the page when the call ends, as [handleMessage_completion]
    says it does, and the promises the handler leaves floating, calls it
    started and did not await. *)
Definition handleMessage (data : event) (w : World)
    : World * list (promise World api.call api.reply unit) :=
  match data with
  | connected employees =>
      match employees with
      | Some _ => (on_store (updateEmployees employees) w, [])
      | None => (w, [])
      end
  | message data => (addMessage data w, [])
  | agent_status data => (on_store (updateEmployeeStatus data) w, [])
  | thinking data => (addThinking data w, [])
  | llm_call data total_cost =>
      let w :=
        addLLMCall
          [ ("agent_name", get "agent_name" data);
            ("model", get "model" data);
            ("prompt", get "prompt" data);
            ("response", get "response" data);
            ("cost", get "cost" data);
            ("tokens", get "tokens" data) ] w in
      match total_cost with
      | Some c => (on_store (updateCost c) w, [])
      | None => (w, [])
      end
  | tool_usage data => (fst (addToolUsage (tool_usage_record data) w), [])
  | cost_update total_cost =>
      match total_cost with
      | Some c => (on_store (updateCost c) w, [])
      | None => (w, [])
      end
  | project_status status text total_cost output_path =>
      let w := on_store (updateStatus status) w in
      let w :=
        addMessage
          [ ("type", VStr "system");
            ("content", VStr text);
            ("sent_from", VStr "System") ] w in
      let w :=
        if String.eqb status "completed" then
          match total_cost with
          | Some c =>
              let w := on_store (updateCost c) w in
              on_store (assign_output_path (str_or output_path "")) w
          | None => w
          end
        else w in
      let (refresh, w) := call fetchProjects w in
      (w, [refresh])
  | employees_updated employees =>
      (on_store (updateEmployees employees) w, [])
  | unknown _ => (w, [])
  end.

(** [onmessage]: a payload that does not parse is logged and dropped, and
    so is what [handleMessage] throws; the page is then as the throw left
    it. *)
Definition onmessage (parsed : option event) (w : World)
    : World * list (promise World api.call api.reply unit) :=
  match parsed with
  | Some data => handleMessage data w
  | None => (w, [])
  end.
End Router.

End useWebSocket.

(** ** components/LLMPanel.vue *)

(** [String.prototype.padStart]: [n] characters taken from [pad] over and
    over, [cur] being what is left of the current round. *)
Fixpoint pad_chars (n : nat) (pad cur : string) : string :=
  match n with
  | O => ""
  | S n' =>
      match cur with
      | String c cur' => String c (pad_chars n' pad cur')
      | EmptyString =>
          match pad with
          | String c pad' => String c (pad_chars n' pad pad')
          | EmptyString => ""
          end
      end
  end.

Definition padStart (targetLength : nat) (padString : string) (s : string)
    : string :=
  if (targetLength <=? String.length s)%nat then s
  else pad_chars (targetLength - String.length s) padString padString ++ s.

(** [String(n)] of an integer. *)
Definition String_of_int (n : Z) : string := NilZero.string_of_int (Z.to_int n).

(** The record the detail endpoint serves. *)
Module LLMCallDetail.
Record t := mk {
  index : Z;
  total_count : Z;
  has_prev : bool;
  has_next : bool;
  fields : obj
}.
End LLMCallDetail.

(** What [fetch] resolves with; [json] is what [response.json()] settles
    with: the parsed body, or the rejection for a body that does not
    parse. *)
Module Response.
Record t := mk {
  ok : bool;
  status : Z;
  json : Async.settled LLMCallDetail.t
}.
End Response.

Inductive fetch_request := GET (url : string).

(** What the panel shows: a record pulled from the endpoint, or the last
    summary of the pushed feed, which the watcher on [props.calls] and the
    mount hook put there (neither is embedded here). *)
Inductive shown :=
| pulled (d : LLMCallDetail.t)
| pushed (call : obj).

Record Panel := mkPanel {
  panel_loading : bool;
  currentCall : option shown;
  currentIndex : Z;
  totalCount : Z;
  hasPrev : bool;
  hasNext : bool;
  expandedMsgs : list nat;
  responseExpanded : bool
}.

Module LLMPanel.
Import Async.
Local Open Scope proc_scope.

Definition job (A : Type) : Type :=
  proc Panel fetch_request (fun _ => Response.t) A.

Definition mounted : Panel := mkPanel false None 0 0 false false [] false.

Definition set_panel_loading (b : bool) (p : Panel) : Panel :=
  mkPanel b (currentCall p) (currentIndex p) (totalCount p) (hasPrev p)
          (hasNext p) (expandedMsgs p) (responseExpanded p).

Definition isLatest (p : Panel) : bool := totalCount p <=? currentIndex p.

Definition resetExpandState (p : Panel) : Panel :=
  mkPanel (panel_loading p) (currentCall p) (currentIndex p) (totalCount p)
          (hasPrev p) (hasNext p) [] false.

(** The five assignments after a 2xx reply. *)
Definition show (data : LLMCallDetail.t) (p : Panel) : Panel :=
  mkPanel (panel_loading p) (Some (pulled data)) (LLMCallDetail.index data)
          (LLMCallDetail.total_count data) (LLMCallDetail.has_prev data)
          (LLMCallDetail.has_next data) (expandedMsgs p) (responseExpanded p).

Definition fetchLLMCall (projectId callId : string) : job unit :=
  if String.eqb projectId "" || String.eqb callId "" then Return tt
  else
    exec (set_panel_loading true) ;;
    exec resetExpandState ;;
    try_finally
      (try_catch
         (response <-
            await (GET ("/api/projects/" ++ projectId ++ "/llm-calls/" ++ callId)) ;;
          if Response.ok response
          then
            match Response.json response with
            | fulfilled data => exec (show data)
            | rejected error => Throw error
            end
          else Return tt)
         (fun error => Return tt))
      (set_panel_loading false).

(** The three navigation handlers call [fetchLLMCall] without awaiting it:
    they return the panel and the promises left floating. *)
Definition goToPrev (projectId : string) (p : Panel)
    : Panel * list (promise Panel fetch_request (fun _ => Response.t) unit) :=
  if hasPrev p && (1 <? currentIndex p) then
    let prevId := padStart 4 "0" (String_of_int (currentIndex p - 1)) in
    let (pr, p) := call (fetchLLMCall projectId prevId) p in
    (p, [pr])
  else (p, []).

Definition goToNext (projectId : string) (p : Panel)
    : Panel * list (promise Panel fetch_request (fun _ => Response.t) unit) :=
  if hasNext p && (currentIndex p <? totalCount p) then
    let nextId := padStart 4 "0" (String_of_int (currentIndex p + 1)) in
    let (pr, p) := call (fetchLLMCall projectId nextId) p in
    (p, [pr])
  else (p, []).

Definition goToLatest (projectId : string) (p : Panel)
    : Panel * list (promise Panel fetch_request (fun _ => Response.t) unit) :=
  if 0 <? totalCount p then
    let latestId := padStart 4 "0" (String_of_int (totalCount p)) in
    let (pr, p) := call (fetchLLMCall projectId latestId) p in
    (p, [pr])
  else (p, []).

End LLMPanel.

(** A host for running the definitions on concrete inputs: sums are exact
    and a number prints as its integer part. *)
Definition plain_host : Host := {|
  toISOString := String_of_int;
  Math_random := fun _ => 0%Q;
  JSON_stringify := fun _ => "{}";
  Number_add := Qplus;
  Number_toString := fun q => String_of_int (Qnum q / Z.pos (Qden q))
|}.

(** A project as the detail endpoint returns it before its first run. *)
Definition sample_project (id : string) : Project.t :=
  Project.mk id "demo" "created" 0 (Some []) None "" (5 # 1) 20.

(** ** Notions the properties are stated with *)

Import Async useProjectStore useWebSocket.

(** The roster of the focused project; empty when there is none. *)
Definition roster (s : Store) : list Employee.t :=
  match currentProject s with
  | Some p => default [] (Project.employees p)
  | None => []
  end.

(** The frames of a stream, handled in the order of their delivery. *)
Definition handle_all `{Host} (frames : list event) (w : World) : World :=
  fold_left (fun w frame => fst (handleMessage frame w)) frames w.

(** What [fetchProjects] does when the reply to its request arrives. *)
Definition fetchProjects_reply (r : settled (list Project.t)) (w : World)
    : World :=
  match r with
  | fulfilled ps => on_store (set_loading false) (on_store (set_projects ps) w)
  | rejected _ =>
      on_store (set_loading false)
        (snd (useNotification.error "加载项目列表失败" None w))
  end.

(** The page after [error(text)] was called on [w0]. *)
Definition with_error (text : string) (w0 : World) : World :=
  snd (useNotification.error text None w0).

(** A network whose every reply is the rejection [e]. *)
Definition failing (e : JsError) : nat -> forall rq, settled (api.reply rq) :=
  fun _ _ => rejected e.

(** What can happen to the queue: a call of [add], a call of [remove], and
    time passing. *)
Inductive queue_op :=
| q_add (message : string) (type : option string) (duration : option Z)
| q_remove (id : nat)
| q_elapse (dt : Z).

Definition apply_op (o : queue_op) (w : World) : World :=
  match o with
  | q_add m t d => snd (useNotification.add m t d w)
  | q_remove i => useNotification.remove i w
  | q_elapse dt => elapse dt w
  end.

Definition apply_ops (ops : list queue_op) (w : World) : World :=
  fold_left (fun w o => apply_op o w) ops w.

Definition ids (w : World) : list nat := Notification.id <$> notifications w.

(** The notification [id] is on display. *)
Definition queued (id : nat) (w : World) : Prop := id ∈ ids w.

(** Ids are issued in order: those on display are distinct and none of them,
    and no timer, is ahead of the counter. *)
Definition queue_ok (w : World) : Prop :=
  NoDup (ids w)
  /\ (forall i, i ∈ ids w -> (i <= idCounter w)%nat)
  /\ (forall tm, tm ∈ timers w -> (target tm <= idCounter w)%nat).

(** The notification [i] is on display and no timer will remove it. *)
Definition stays (i : nat) (w : World) : Prop :=
  queued i w /\ (i <= idCounter w)%nat
  /\ forall tm, tm ∈ timers w -> target tm <> i.

(** The number a string of decimal digits writes. *)
Definition read_decimal (s : string) : option Z :=
  match NilZero.uint_of_string s with
  | Some u => Some (Z.of_uint u)
  | None => None
  end.

(** [n] is sent as four decimal digits. *)
Definition four_digits (n : Z) : bool :=
  let callId := padStart 4 "0" (String_of_int n) in
  (String.length callId =? 4)%nat
  && match read_decimal callId with
     | Some m => m =? n
     | None => false
     end.

(** The address [fetchLLMCall] requests. *)
Definition call_url (projectId callId : string) : string :=
  "/api/projects/" ++ projectId ++ "/llm-calls/" ++ callId.

(** What can happen to an instance: the two calls of its owner, and the
    transport opening, closing or failing one of its sockets, or the peer
    starting to close one. *)
Inductive conn_input :=
| do_connect (projectId : string)
| do_disconnect
| transport_open (i : nat)
| transport_close (i : nat)
| transport_error (i : nat)
| transport_closing (i : nat).

Definition conn_step (loc : Location) (x : conn_input) (c : Conn) : Conn :=
  match x with
  | do_connect projectId => connect loc projectId c
  | do_disconnect => disconnect c
  | transport_open i => onopen i c
  | transport_close i => onclose i c
  | transport_error i => onerror i c
  | transport_closing i => peer_closes i c
  end.

Definition conn_run (loc : Location) (xs : list conn_input) (c : Conn) : Conn :=
  fold_left (fun c x => conn_step loc x c) xs c.

(** A socket that is connecting or open. *)
Definition live (sk : Socket) : bool :=
  match state sk with
  | CONNECTING | OPEN => true
  | CLOSING | CLOSED => false
  end.

Definition open_count (c : Conn) : nat :=
  length (filter (fun sk => live sk = true) (sockets c)).

(** The only socket that may be live is the one [ws] holds, and the flag is
    down when [ws] holds none. *)
Definition conn_ok (c : Conn) : Prop :=
  (forall i sk, sockets c !! i = Some sk -> live sk = true -> ws c = Some i)
  /\ (ws c = None -> isConnected c = false).

(** ** More of the code

    The rest of the files above, and the components that call them. *)

(** *** Async functions, seen from their callers *)

(** The requests a run sends, in the order it sends them. *)
Fixpoint journal {S Req} {Resp : Req -> Type} {A}
    (net : nat -> forall rq, settled (Resp rq)) (meanwhile : nat -> S -> S)
    (n : nat) (p : proc S Req Resp A) (s : S) : list Req :=
  match p with
  | Return _ | Throw _ => []
  | Read k => journal net meanwhile n (k s) s
  | Modify g k => journal net meanwhile n k (g s)
  | Await rq k =>
      rq :: journal net meanwhile (Datatypes.S n) (k (net n rq)) (meanwhile n s)
  end.

(** An async function of a store, called by a component whose state [T]
    holds that store among its own refs. *)
Fixpoint zoom {S T Req} {Resp : Req -> Type} {A}
    (view : T -> S) (update : S -> T -> T) (p : proc S Req Resp A)
    : proc T Req Resp A :=
  match p with
  | Return a => Return a
  | Throw e => Throw e
  | Read k => Read (fun t => zoom view update (k (view t)))
  | Modify g k => Modify (fun t => update (g (view t)) t) (zoom view update k)
  | Await rq k => Await rq (fun r => zoom view update (k r))
  end.

(** *** The application around the stores *)

(** [configForm] of the project page. *)
Module ConfigForm.
Record t := mk {
  idea : string;
  investment : Q;
  n_round : Z
}.
End ConfigForm.

(** [form] of the creation dialog. *)
Module CreateForm.
Record t := mk {
  name : string;
  idea : string;
  investment : Q;
  n_round : Z
}.
End CreateForm.

(** The stores, the connection of the project page, the router and the
    refs of the components: [route_id] is [route.params.id] while the
    project page is mounted, [pushes] the paths given to [router.push],
    oldest first. *)
Record App := mkApp {
  world : World;
  conn : Conn;
  route_id : string;
  pushes : list string;
  createProjectVisible : bool;
  configForm : ConfigForm.t;
  form : CreateForm.t;
  modal_loading : bool
}.

Definition set_world (v : World) (a : App) : App :=
  mkApp v (conn a) (route_id a) (pushes a) (createProjectVisible a)
        (configForm a) (form a) (modal_loading a).

Definition set_conn (v : Conn) (a : App) : App :=
  mkApp (world a) v (route_id a) (pushes a) (createProjectVisible a)
        (configForm a) (form a) (modal_loading a).

Definition set_configForm (v : ConfigForm.t) (a : App) : App :=
  mkApp (world a) (conn a) (route_id a) (pushes a) (createProjectVisible a)
        v (form a) (modal_loading a).

Definition set_form (v : CreateForm.t) (a : App) : App :=
  mkApp (world a) (conn a) (route_id a) (pushes a) (createProjectVisible a)
        (configForm a) v (modal_loading a).

Definition set_modal_loading (v : bool) (a : App) : App :=
  mkApp (world a) (conn a) (route_id a) (pushes a) (createProjectVisible a)
        (configForm a) (form a) v.

Definition set_createProjectVisible (v : bool) (a : App) : App :=
  mkApp (world a) (conn a) (route_id a) (pushes a) v
        (configForm a) (form a) (modal_loading a).

(** [router.push(path)]. *)
Definition router_push (path : string) (a : App) : App :=
  mkApp (world a) (conn a) (route_id a) (pushes a ++ [path])
        (createProjectVisible a) (configForm a) (form a) (modal_loading a).

Definition on_world (f : World -> World) (a : App) : App :=
  set_world (f (world a)) a.

Definition on_conn (f : Conn -> Conn) (a : App) : App :=
  set_conn (f (conn a)) a.

(** What a component does, over the calls of [api]. *)
Definition handler (A : Type) : Type := proc App api.call api.reply A.

(** A store action, called from a component. *)
Definition store_action {A} (p : action A) : handler A :=
  zoom world set_world p.

(** stores/modal.js *)
Module useModalStore.

Definition showCreateProject (a : App) : App := set_createProjectVisible true a.

Definition hideCreateProject (a : App) : App := set_createProjectVisible false a.

End useModalStore.

(** views/ProjectPage.vue *)
Module ProjectPage.
Local Open Scope proc_scope.

(** [configForm] as the page sets it up. *)
Definition defaults : ConfigForm.t :=
  ConfigForm.mk
    "创建一个基于web的俄罗斯方块游戏。要求实现全部流程，形成项目。不要用搜索功能。"
    (5 # 1) 20.

(** The three assignments under [if (project.value)]. *)
Definition sync_form (a : App) : App :=
  match currentProject (store (world a)) with
  | Some p =>
      set_configForm
        (ConfigForm.mk (Project.idea p) (Project.investment p)
                       (Project.n_round p)) a
  | None => a
  end.

Definition loadProject (loc : Location) : handler unit :=
  try_catch
    (Read (fun a => store_action (fetchProject (route_id a))) ;;
     exec (on_world (on_store clearMessages)) ;;
     exec sync_form ;;
     Read (fun a => exec (on_conn (connect loc (route_id a)))))
    (fun error => exec (router_push "/")).

(** The object literal [handleStart] sends. *)
Definition config_data (f : ConfigForm.t) : obj :=
  [ ("idea", VStr (ConfigForm.idea f));
    ("investment", VNum (ConfigForm.investment f));
    ("n_round", VNum (inject_Z (ConfigForm.n_round f))) ].

Definition handleStart : handler unit :=
  Read (fun a =>
    store_action (updateProject (route_id a) (config_data (configForm a)))) ;;
  Read (fun a => store_action (startProject (route_id a))).

Definition handleStop : handler unit :=
  Read (fun a => store_action (stopProject (route_id a))).

(** [confirmed] is the answer to [confirm(...)]. *)
Definition handleDelete (confirmed : bool) : handler unit :=
  if negb confirmed then Return tt
  else
    Read (fun a => store_action (deleteProject (route_id a))) ;;
    exec (router_push "/").

(** The callback of the watcher on [route.params.id]; an empty id is falsy. *)
Definition onRouteId (loc : Location) (newId : string) : handler unit :=
  if String.eqb newId "" then Return tt else loadProject loc.

(** [onUnmounted]. *)
Definition unmounted (a : App) : App :=
  on_world (on_store reset) (on_conn disconnect a).

End ProjectPage.

(** The sidebar (src/unnamed/part_001). *)
Module Sidebar.
Local Open Scope proc_scope.

Definition selectProject (id : string) (a : App) : App :=
  router_push ("/project/" ++ id) a.

Definition startProject (id : string) : handler unit :=
  try_catch
    (store_action (useProjectStore.startProject id) ;;
     Read (fun a =>
       if decide (Some id <> currentProjectId (store (world a)))
       then exec (router_push ("/project/" ++ id))
       else Return tt))
    (fun error => Return tt).

Definition stopProject (id : string) : handler unit :=
  try_catch
    (store_action (useProjectStore.stopProject id))
    (fun error => Return tt).

(** [onMounted]: the list is fetched and the promise left floating. *)
Definition mounted (a : App) : App * list (promise App api.call api.reply unit) :=
  let (pr, a) := call (store_action fetchProjects) a in
  (a, [pr]).

End Sidebar.

(** components/CreateProjectModal.vue *)
Module CreateProjectModal.
Local Open Scope proc_scope.

Definition blank : CreateForm.t :=
  CreateForm.mk ""
    "创建一个基于web的俄罗斯方块游戏。要求实现全部流程，形成项目。不要用搜索功能。"
    (5 # 1) 20.

Definition resetForm (a : App) : App := set_form blank a.

(** [{ ...form }]. *)
Definition form_data (f : CreateForm.t) : obj :=
  [ ("name", VStr (CreateForm.name f));
    ("idea", VStr (CreateForm.idea f));
    ("investment", VNum (CreateForm.investment f));
    ("n_round", VNum (inject_Z (CreateForm.n_round f))) ].

Definition handleSubmit : handler unit :=
  exec (set_modal_loading true) ;;
  try_finally
    (try_catch
       (project <-
          Read (fun a => store_action (createProject (form_data (form a)))) ;;
        exec useModalStore.hideCreateProject ;;
        exec resetForm ;;
        exec (router_push ("/project/" ++ Project.id project)))
       (fun error => Return tt))
    (set_modal_loading false).

End CreateProjectModal.

(** *** The rest of the detail panel (components/EmployeeGrid.vue, second
    component of the file) *)

Module LLMPanelRest.

(** [expandedMsgs] is a [Set]: [has], [delete] and [add] on a list that
    holds no index twice. *)
Definition toggleMessage (idx : nat) (p : Panel) : Panel :=
  mkPanel (panel_loading p) (currentCall p) (currentIndex p) (totalCount p)
          (hasPrev p) (hasNext p)
          (if decide (idx ∈ expandedMsgs p)
           then filter (fun i => i <> idx) (expandedMsgs p)
           else expandedMsgs p ++ [idx])
          (responseExpanded p).

Definition toggleResponse (p : Panel) : Panel :=
  mkPanel (panel_loading p) (currentCall p) (currentIndex p) (totalCount p)
          (hasPrev p) (hasNext p) (expandedMsgs p) (negb (responseExpanded p)).

(** [v || d] where the panel keeps a count: [None] when [v] is truthy and
    not an integer, which the refs of [Panel] have no place for. *)
Definition count_or (v : value) (d : Z) : option Z :=
  if truthy v then
    match v with
    | VNum q =>
        if Z.rem (Qnum q) (Z.pos (Qden q)) =? 0
        then Some (Qnum q / Z.pos (Qden q))
        else None
    | _ => None
    end
  else Some d.

(** The callback of the watcher on [props.calls.length], run with the feed
    [calls] as it then is and the length [oldLen] it had before. *)
Definition onCallsLength (calls : list obj) (oldLen : nat) (p : Panel)
    : option Panel :=
  let newLen := length calls in
  match last calls with
  | Some latestCall =>
      if (oldLen <? newLen)%nat then
        if LLMPanel.isLatest p || negb (bool_decide (is_Some (currentCall p)))
        then
          match count_or (get "index" latestCall) (Z.of_nat newLen),
                count_or (get "total_count" latestCall) (Z.of_nat newLen) with
          | Some index, Some total =>
              Some (mkPanel (panel_loading p) (Some (pushed latestCall))
                            index total (1 <? index) false
                            (expandedMsgs p) (responseExpanded p))
          | _, _ => None
          end
        else
          match count_or (get "total_count" latestCall) (Z.of_nat newLen) with
          | Some total =>
              Some (mkPanel (panel_loading p) (currentCall p) (currentIndex p)
                            total (hasPrev p) (currentIndex p <? total)
                            (expandedMsgs p) (responseExpanded p))
          | None => None
          end
      else Some p
  | None => Some p
  end.

End LLMPanelRest.

(** *** Streams of frames *)

(** The frames after which [messages], [thinkingLogs], [llmCalls] and
    [toolUsages] are one longer. *)
Definition to_messages (f : event) : bool :=
  match f with
  | message _ | project_status _ _ _ _ => true
  | _ => false
  end.

(** A [tool_usage] frame feeds the log when its log text can be built. *)
Definition to_thinkingLogs `{Host} (f : event) : bool :=
  match f with
  | thinking _ => true
  | tool_usage data =>
      bool_decide (is_Some (tool_log (tool_usage_record data)))
  | _ => false
  end.

Definition to_llmCalls (f : event) : bool :=
  match f with
  | llm_call _ _ => true
  | _ => false
  end.

Definition to_toolUsages (f : event) : bool :=
  match f with
  | tool_usage _ => true
  | _ => false
  end.

Definition count_frames (which : event -> bool) (frames : list event) : nat :=
  length (List.filter which frames).

Definition starts_refresh (f : event) : bool :=
  match f with
  | project_status _ _ _ _ => true
  | _ => false
  end.

(** *** Frames and the refreshes they start

    What the page runs on behalf of the router: the handler of a frame, and
    the rest of a call the router left floating, when the reply to its
    request arrives. *)
Inductive page_input :=
| delivers (frame : event)
| settles (k : nat) (net : forall rq, settled (api.reply rq)).

(** The page and the calls the router has started, oldest first. *)
Definition Page : Type :=
  World * list (promise World api.call api.reply unit).

Definition page_step `{Host} (x : page_input) (pg : Page) : Page :=
  match x with
  | delivers frame =>
      let (w, started) := handleMessage frame (fst pg) in
      (w, (snd pg ++ started)%list)
  | settles k net =>
      match snd pg !! k with
      | Some pr =>
          let (pr, w) := resume pr net (fst pg) in
          (w, <[k := pr]> (snd pg))
      | None => pg
      end
  end.

Definition page_run `{Host} (xs : list page_input) (pg : Page) : Page :=
  fold_left (fun pg x => page_step x pg) xs pg.

(** A call of [fetchProjects] the router left floating: settled, or waiting
    for the list with the rest of [fetchProjects] to run. *)
Definition is_refresh (pr : promise World api.call api.reply unit) : Prop :=
  (exists r, pr = Settled r)
  \/ exists k,
       pr = Pending api.getProjects k
       /\ forall r w,
            call (k r) w = (Settled (fulfilled tt), fetchProjects_reply r w).

Definition is_delivery (x : page_input) : bool :=
  match x with
  | delivers _ => true
  | settles _ _ => false
  end.

(** The frames among the inputs. *)
Definition frames_of (xs : list page_input) : list event :=
  omap (fun x => match x with delivers f => Some f | settles _ _ => None end) xs.

(** *** The notification queue and the connection, over time *)

(** The ids the timers due at [t] will remove. *)
Definition due_targets (t : Z) (w : World) : list nat :=
  target <$> filter (fun tm => due t tm = true) (timers w).

(** The flag is up only while the held socket is open, or closing because
    the peer said so and its close event is still to come. *)
Definition flag_ok (c : Conn) : Prop :=
  isConnected c = true ->
  exists i u st,
    ws c = Some i /\ sockets c !! i = Some (mkSocket u st)
    /\ (st = OPEN \/ st = CLOSING).

(** The flag is up only while the held socket is open. *)
Definition flag_open (c : Conn) : Prop :=
  isConnected c = true ->
  exists i u, ws c = Some i /\ sockets c !! i = Some (mkSocket u OPEN).

Definition is_closing (x : conn_input) : bool :=
  match x with
  | transport_closing _ => true
  | _ => false
  end.


(** The four telemetry sequences of the store. *)
Definition telemetry (s : Store)
    : list obj * list obj * list obj * list obj :=
  (messages s, thinkingLogs s, llmCalls s, toolUsages s).

(** What the frame handlers never touch: the focus, the ids of the summary
    list, and the notification store with its timers. *)
Definition identity_of (w : World)
    : option string * option string * list string
      * (list Notification.t * nat * list Timer * Z) :=
  (currentProjectId (store w), Project.id <$> currentProject (store w),
   Project.id <$> projects (store w),
   (notifications w, idCounter w, timers w, now w)).

(** *** Networks and pages to run the components on *)

(** A network that knows one project and refuses nothing else. *)
Definition serving (p : Project.t) (n : nat) (rq : api.call)
    : settled (api.reply rq) :=
  match rq return settled (api.reply rq) with
  | api.getProjects => fulfilled [p]
  | api.getProject _ | api.createProject _ => fulfilled p
  | _ => fulfilled VNull
  end.

(** A network that is down. *)
Definition offline (n : nat) (rq : api.call) : settled (api.reply rq) :=
  rejected (mkError "Failed to fetch").

(** The page on the route of the project [id], nothing loaded yet. *)
Definition on_route (id : string) : App :=
  mkApp (initial 0) fresh id [] false ProjectPage.defaults
        CreateProjectModal.blank false.

(** * Properties *)

(** ** The found entry of a list, updated in place *)

Section FindUpdate.
Context {A : Type} (P : A -> Prop) `{!forall x, Decision (P x)}.

Lemma list_find_insert_found (l : list A) (i : nat) (x y : A) :
  list_find P l = Some (i, x) -> P y ->
  list_find P (<[i := y]> l) = Some (i, y).
Proof.
  intros Hfind Hy. apply list_find_Some in Hfind as (Hi & _ & Hbefore).
  apply list_find_Some. split; [|split].
  - apply list_lookup_insert_eq. by eapply lookup_lt_Some.
  - done.
  - intros j z Hj Hlt. rewrite list_lookup_insert_ne in Hj by lia. eauto.
Qed.

Lemma filter_none (l : list A) :
  (forall x, x ∈ l -> ~ P x) -> filter P l = [].
Proof.
  induction l as [|x l IH]; intros Hl; [done|].
  rewrite filter_cons. destruct (decide (P x)) as [Hx|_].
  - destruct (Hl x); [by left|done].
  - apply IH. intros y Hy. apply Hl. by right.
Qed.

Lemma list_find_absent (l : list A) :
  (forall x, x ∈ l -> ~ P x) -> list_find P l = None.
Proof. intros Hl. apply list_find_None, Forall_forall. done. Qed.
End FindUpdate.

(** ** The project store *)

Lemma updateCost_currentProject (c : Q) (s : Store) :
  currentProject (updateCost c s)
  = Project.with_total_cost c <$> currentProject s.
Proof.
  unfold updateCost.
  destruct (currentProject s) as [p|] eqn:E; simpl;
    destruct (list_find _ _) as [[i q]|]; simpl; by rewrite ?E.
Qed.

Lemma updateCost_idempotent (c : Q) (s : Store) :
  updateCost c (updateCost c s) = updateCost c s.
Proof.
  destruct s as [ps cid cp ld ms ts ls us]. unfold updateCost; simpl.
  assert (Hcp : forall q, Project.with_total_cost c (Project.with_total_cost c q)
                     = Project.with_total_cost c q) by (by intros []).
  destruct cp as [p|]; simpl;
    destruct (list_find _ ps) as [[i q]|] eqn:Hf; simpl; rewrite ?Hf; simpl;
    try done.
  - erewrite list_find_insert_found by (eassumption
      || (apply list_find_Some in Hf as (_ & Hq & _); exact Hq)).
    simpl. by rewrite list_insert_insert_eq, !Hcp.
  - erewrite list_find_insert_found by (eassumption
      || (apply list_find_Some in Hf as (_ & Hq & _); exact Hq)).
    simpl. by rewrite list_insert_insert_eq, !Hcp.
Qed.

Lemma updateCost_set_llmCalls (c : Q) (l : list obj) (s : Store) :
  updateCost c (set_llmCalls l s) = set_llmCalls l (updateCost c s).
Proof.
  destruct s as [ps cid cp ld ms ts ls us]. unfold updateCost; simpl.
  destruct cp; simpl; by destruct (list_find _ ps) as [[i q]|].
Qed.

Lemma llmCalls_updateCost (c : Q) (s : Store) :
  llmCalls (updateCost c s) = llmCalls s.
Proof.
  unfold updateCost.
  destruct (currentProject s); simpl; by destruct (list_find _ _) as [[i q]|].
Qed.

Lemma llm_call_store `{Host} (c : Q) (data : obj) (w : World) :
  exists entry,
    store (fst (handleMessage (llm_call data (Some c)) w))
    = updateCost c (set_llmCalls (llmCalls (store w) ++ [entry]) (store w)).
Proof. eexists. reflexivity. Qed.

(** C1.  A [cost_update] frame and an [llm_call] frame that carries a
    [total_cost] both assign the figure [c] to the focused project, whatever
    its cost was before, and assigning the same figure again changes nothing:
    a second identical [cost_update] leaves the page as the first left it, and
    a second identical [llm_call] leaves the store as the first left it but
    for the feed, which takes the one record every [llm_call] appends. *)
Theorem cost_events_assign_total_cost `{Host}
    (c : Q) (data : obj) (w : World) :
  let w1 := fst (handleMessage (cost_update (Some c)) w) in
  let w2 := fst (handleMessage (llm_call data (Some c)) w) in
  let w11 := fst (handleMessage (cost_update (Some c)) w1) in
  let w22 := fst (handleMessage (llm_call data (Some c)) w2) in
  (currentProject (store w1)
     = Project.with_total_cost c <$> currentProject (store w)
   /\ Project.total_cost <$> currentProject (store w1)
     = (fun _ => c) <$> currentProject (store w))
  /\ (currentProject (store w2)
     = Project.with_total_cost c <$> currentProject (store w)
   /\ Project.total_cost <$> currentProject (store w2)
     = (fun _ => c) <$> currentProject (store w))
  /\ updateCost c (updateCost c (store w)) = updateCost c (store w)
  /\ w11 = w1
  /\ set_llmCalls (llmCalls (store w2)) (store w22) = store w2
  /\ length (llmCalls (store w22)) = S (length (llmCalls (store w2))).
Proof.
  intros w1 w2 w11 w22.
  destruct (llm_call_store c data w) as [e1 H1].
  destruct (llm_call_store c data w2) as [e2 H2].
  fold w2 in H1. fold w22 in H2.
  repeat split.
  - apply updateCost_currentProject.
  - subst w1; simpl. rewrite updateCost_currentProject.
    by destruct (currentProject (store w)).
  - rewrite H1, updateCost_currentProject. by destruct (store w).
  - rewrite H1, updateCost_currentProject. by destruct (store w) as [? ? [] ].
  - apply updateCost_idempotent.
  - subst w11 w1. simpl. unfold on_store; simpl.
    f_equal. apply updateCost_idempotent.
  - rewrite H2, <- updateCost_set_llmCalls.
    replace (set_llmCalls _ (set_llmCalls _ (store w2))) with (store w2)
      by (by destruct (store w2)).
    rewrite H1. apply updateCost_idempotent.
  - rewrite H2, llmCalls_updateCost. destruct (store w2); simpl.
    rewrite length_app; simpl; lia.
Qed.

(** C2.  [clearMessages()] empties the four telemetry sequences and leaves
    the focused project, with its status, cost and roster, the summary list,
    the focus and the loading flag as they were. *)
Theorem clearMessages_empties_telemetry_only (s : Store) :
  let s' := clearMessages s in
  (messages s' = [] /\ thinkingLogs s' = [] /\ llmCalls s' = []
   /\ toolUsages s' = [])
  /\ currentProject s' = currentProject s
  /\ (Project.status <$> currentProject s' = Project.status <$> currentProject s
      /\ Project.total_cost <$> currentProject s'
         = Project.total_cost <$> currentProject s
      /\ Project.employees <$> currentProject s'
         = Project.employees <$> currentProject s)
  /\ projects s' = projects s
  /\ currentProjectId s' = currentProjectId s
  /\ loading s' = loading s.
Proof. by destruct s. Qed.

Lemma on_store_fixed (f : Store -> Store) (w : World) :
  f (store w) = store w -> on_store f w = w.
Proof. intros Hf. destruct w. unfold on_store; simpl in *. by rewrite Hf. Qed.

(** C10.  With no project focused, each of the four project-field
    mutations returns the store it was given; the functions are total, so
    there is nothing to throw.  The frames that reach them before a project
    is loaded leave the page as it is and start nothing. *)
Theorem updates_without_focus_change_nothing
    (employees : option (list Employee.t)) (status : string) (cost : Q)
    (data : AgentStatus.t) (s : Store) :
  currentProject s = None ->
  currentProjectId s = None ->
  (updateEmployees employees s = s
   /\ updateStatus status s = s
   /\ updateCost cost s = s
   /\ updateEmployeeStatus data s = s)
  /\ forall (host : Host) (w : World),
       store w = s ->
       handleMessage (connected employees) w = (w, [])
       /\ handleMessage (employees_updated employees) w = (w, [])
       /\ handleMessage (agent_status data) w = (w, [])
       /\ handleMessage (cost_update (Some cost)) w = (w, []).
Proof.
  intros Hcp Hid.
  assert (Hfind : list_find (fun p => Some (Project.id p) = currentProjectId s)
                            (projects s) = None).
  { apply list_find_absent. intros p _. by rewrite Hid. }
  assert (Hfour : updateEmployees employees s = s
                  /\ updateStatus status s = s
                  /\ updateCost cost s = s
                  /\ updateEmployeeStatus data s = s).
  { unfold updateEmployees, updateStatus, updateCost, updateEmployeeStatus.
    rewrite Hcp; simpl. by rewrite Hfind. }
  split; [exact Hfour|].
  destruct Hfour as (He & _ & Hc & Hs).
  intros host w <-. cbn [handleMessage].
  rewrite !on_store_fixed by done. by destruct employees.
Qed.

Lemma updates_without_focus_change_nothing_witness :
  let s := set_projects [sample_project "p1"; sample_project "p2"] emptyStore in
  updateEmployees (Some []) s = s
  /\ updateStatus "running" s = s
  /\ updateCost (12345 # 10000) s = s
  /\ updateEmployeeStatus (AgentStatus.mk "Alice" "working" (Some "coding")) s = s.
Proof.
  exact (proj1
           (updates_without_focus_change_nothing (Some []) "running"
              (12345 # 10000) (AgentStatus.mk "Alice" "working" (Some "coding"))
              (set_projects [sample_project "p1"; sample_project "p2"] emptyStore)
              eq_refl eq_refl)).
Defined.

Lemma get_set_eq (k : string) (v : value) (o : obj) : get k (set k v o) = v.
Proof.
  induction o as [|[k' v'] o IH]; simpl.
  - by rewrite String.eqb_refl.
  - destruct (String.eqb k k') eqn:Hk; simpl; by rewrite ?String.eqb_refl, ?Hk.
Qed.

Lemma get_set_ne (k k' : string) (v : value) (o : obj) :
  k <> k' -> get k' (set k v o) = get k' o.
Proof.
  intros Hne. induction o as [|[k0 v0] o IH]; simpl.
  - destruct (String.eqb k' k) eqn:Hk; [|done].
    apply String.eqb_eq in Hk. by subst.
  - destruct (String.eqb k k0) eqn:Hk; simpl.
    + apply String.eqb_eq in Hk. subst k0.
      destruct (String.eqb k' k) eqn:Hk'; [|done].
      apply String.eqb_eq in Hk'. by subst.
    + by rewrite IH.
Qed.

Lemma updateEmployeeStatus_found (data : AgentStatus.t) (s : Store)
    (p : Project.t) (es : list Employee.t) (i : nat) (e : Employee.t) :
  currentProject s = Some p -> Project.employees p = Some es ->
  list_find (fun e => Employee.name e = AgentStatus.agent_name data) es
  = Some (i, e) ->
  updateEmployeeStatus data s
  = set_currentProject
      (Some (Project.with_employees
               (Some (<[i := set_employee_status data e]> es)) p)) s.
Proof.
  intros Hp Hes Hfind. unfold updateEmployeeStatus. by rewrite Hp, Hes, Hfind.
Qed.

(** C3.  An [agent_status] frame whose [agent_name] is not in the roster of
    the focused project changes nothing and starts nothing.  When the name is
    there, the first employee that bears it has, after the frame, [is_idle]
    true exactly when the status is ['idle'] and [current_action] the action
    of the frame, or the empty string when that is absent or empty; it keeps
    its place, its name and its profile; the roster keeps its length and its
    other employees; the other fields of the project and the rest of the page
    stay as they were, and nothing is started. *)
Theorem agent_status_updates_known_employee_only `{Host}
    (data : AgentStatus.t) (w : World) :
  let r := handleMessage (agent_status data) w in
  (AgentStatus.agent_name data ∉ Employee.name <$> roster (store w) ->
   r = (w, []))
  /\ (AgentStatus.agent_name data ∈ Employee.name <$> roster (store w) ->
      exists (i : nat) (e e' : Employee.t) (p p' : Project.t),
        roster (store w) !! i = Some e
        /\ Employee.name e = AgentStatus.agent_name data
        /\ (forall j e0, roster (store w) !! j = Some e0 -> (j < i)%nat ->
              Employee.name e0 <> AgentStatus.agent_name data)
        /\ roster (store r.1) !! i = Some e'
        /\ Employee.is_idle e' = String.eqb (AgentStatus.status data) "idle"
        /\ Employee.current_action e' = str_or (AgentStatus.action data) ""
        /\ Employee.name e' = Employee.name e
        /\ Employee.profile e' = Employee.profile e
        /\ length (roster (store r.1)) = length (roster (store w))
        /\ (forall j, j <> i ->
              roster (store r.1) !! j = roster (store w) !! j)
        /\ currentProject (store w) = Some p
        /\ currentProject (store r.1) = Some p'
        /\ (Project.id p' = Project.id p
            /\ Project.name p' = Project.name p
            /\ Project.status p' = Project.status p
            /\ Project.total_cost p' = Project.total_cost p
            /\ Project.output_path p' = Project.output_path p
            /\ Project.idea p' = Project.idea p
            /\ Project.investment p' = Project.investment p
            /\ Project.n_round p' = Project.n_round p)
        /\ (projects (store r.1) = projects (store w)
            /\ currentProjectId (store r.1) = currentProjectId (store w)
            /\ loading (store r.1) = loading (store w)
            /\ telemetry (store r.1) = telemetry (store w))
        /\ (now r.1 = now w /\ draws r.1 = draws w /\ timers r.1 = timers w
            /\ notifications r.1 = notifications w
            /\ idCounter r.1 = idCounter w)
        /\ r = (on_store
                  (set_currentProject
                     (Some (Project.with_employees
                              (Some (<[i := e']> (roster (store w)))) p))) w,
                [])).
Proof.
  intros r. subst r. split.
  - intros Habsent. cbn [handleMessage]. f_equal.
    destruct w as [t d tm ns k s]. unfold on_store. cbn [store] in *. f_equal.
    unfold roster in Habsent. unfold updateEmployeeStatus.
    destruct (currentProject s) as [p|]; [|done].
    destruct (Project.employees p) as [es|]; [|done].
    simpl in Habsent. rewrite list_find_absent; [done|].
    intros e He Hname. apply Habsent. rewrite <- Hname.
    by apply list_elem_of_fmap_2.
  - intros Hpresent. unfold roster in Hpresent.
    destruct (currentProject (store w)) as [p|] eqn:Hp;
      [|by apply elem_of_nil in Hpresent].
    destruct (Project.employees p) as [es|] eqn:Hes;
      [|by apply elem_of_nil in Hpresent].
    cbn [default] in Hpresent.
    destruct (list_find (fun e => Employee.name e = AgentStatus.agent_name data) es)
      as [[i e]|] eqn:Hfind.
    2:{ apply list_find_None in Hfind.
        apply list_elem_of_fmap in Hpresent as (e & Hname & He).
        rewrite Forall_forall in Hfind. by destruct (Hfind e He). }
    pose proof Hfind as (Hi & Hname & Hfirst)%list_find_Some.
    assert (Hroster : roster (store w) = es) by (unfold roster; by rewrite Hp, Hes).
    cbn [handleMessage fst snd].
    change (store (on_store ?f w)) with (f (store w)).
    rewrite (updateEmployeeStatus_found data (store w) p es i e Hp Hes Hfind).
    assert (Hafter : roster
                       (set_currentProject
                          (Some (Project.with_employees
                                   (Some (<[i := set_employee_status data e]> es))
                                   p)) (store w))
                     = <[i := set_employee_status data e]> es) by done.
    rewrite Hafter, Hroster.
    exists i, e, (set_employee_status data e), p,
      (Project.with_employees
         (Some (<[i := set_employee_status data e]> es)) p).
    split; [done|]. split; [done|]. split; [by eauto|].
    split.
    { apply list_lookup_insert_eq. eapply lookup_lt_Some; eassumption. }
    split; [done|]. split; [done|]. split; [done|]. split; [done|].
    split; [by rewrite length_insert|].
    split; [intros j Hj; by apply list_lookup_insert_ne|].
    split; [done|]. split; [done|]. split; [done|]. split; [done|].
    split; [done|]. unfold on_store.
    by rewrite (updateEmployeeStatus_found data (store w) p es i e Hp Hes Hfind).
Qed.

Lemma agent_status_updates_known_employee_only_witness :
  let alice := Employee.mk "Alice" "Engineer" true "" in
  let bob := Employee.mk "Bob" "Architect" true "" in
  let p := Project.with_employees (Some [alice; bob]) (sample_project "P1") in
  let w := on_store (set_currentProject (Some p)) (initial 0) in
  @handleMessage plain_host
    (agent_status (AgentStatus.mk "Carol" "working" (Some "coding"))) w
  = (w, [])
  /\ exists e',
       roster
         (store
            (@handleMessage plain_host
               (agent_status (AgentStatus.mk "Bob" "working" (Some "coding")))
               w).1)
       !! 1%nat = Some e'
       /\ Employee.is_idle e' = false
       /\ Employee.current_action e' = "coding".
Proof.
  intros alice bob p w. split.
  - apply (@agent_status_updates_known_employee_only plain_host
             (AgentStatus.mk "Carol" "working" (Some "coding")) w).
    vm_compute. intros Hin.
    repeat (apply elem_of_cons in Hin as [Hin|Hin]; [discriminate Hin|]).
    by apply elem_of_nil in Hin.
  - destruct (@agent_status_updates_known_employee_only plain_host
                (AgentStatus.mk "Bob" "working" (Some "coding")) w)
      as [_ Hpresent].
    destruct Hpresent
      as (i & e & e' & _ & _ & Hi & Hname & _ & Hi' & Hidle & Haction & _).
    { vm_compute. apply elem_of_cons; right; apply elem_of_cons; by left. }
    destruct i as [|[|i]]; [| |discriminate Hi].
    + injection Hi as <-. discriminate Hname.
    + exists e'. split; [exact Hi'|]. split; [exact Hidle|exact Haction].
Defined.

Section ToolLog.
Context `{Host}.

Lemma tool_log_shape (usage log : obj) :
  tool_log usage = Some log ->
  get "type" log = VStr "tool"
  /\ get "agent_name" log = get "agent_name" usage.
Proof.
  unfold tool_log.
  destruct (ToString (get "tool_name" usage)); [|done].
  destruct (ToString (js_or _ _)); [|done].
  by intros [= <-].
Qed.

Lemma tool_log_unprintable_result (usage : obj) (o : obj) :
  get "result" usage = VObj o -> has_own "toString" o = true ->
  tool_log usage = None.
Proof.
  intros Hresult Hown. unfold tool_log. rewrite Hresult.
  cbn [js_or truthy ToString]. rewrite Hown.
  by destruct (ToString (get "tool_name" usage)).
Qed.

(** What [addToolUsage] leaves, on both of its exits. *)
Lemma addToolUsage_spec (usage : obj) (w : World) :
  let r := addToolUsage usage w in
  exists record : obj,
    toolUsages (store r.1) = (toolUsages (store w) ++ [record])%list
    /\ record
       = set "timestamp"
           (js_or (get "timestamp" usage)
                  (now_iso (set_draws (S (draws w)) w)))
           (set "id" (fresh_id w).1 usage)
    /\ (messages (store r.1) = messages (store w)
        /\ llmCalls (store r.1) = llmCalls (store w)
        /\ currentProject (store r.1) = currentProject (store w)
        /\ currentProjectId (store r.1) = currentProjectId (store w)
        /\ projects (store r.1) = projects (store w)
        /\ loading (store r.1) = loading (store w))
    /\ (notifications r.1 = notifications w /\ idCounter r.1 = idCounter w
        /\ timers r.1 = timers w /\ now r.1 = now w)
    /\ match tool_log usage with
       | Some log =>
           r.2 = returned
           /\ exists entry : obj,
                thinkingLogs (store r.1)
                = (thinkingLogs (store w) ++ [entry])%list
                /\ entry
                   = set "timestamp"
                       (js_or (get "timestamp" log)
                              (now_iso (set_draws (S (S (draws w))) w)))
                       (set "id" (fresh_id (set_draws (S (draws w)) w)).1 log)
       | None =>
           r.2 = threw TypeError
           /\ thinkingLogs (store r.1) = thinkingLogs (store w)
       end.
Proof.
  intros r. subst r. unfold addToolUsage. cbn [fresh_id].
  eexists. split.
  { destruct (tool_log usage); reflexivity. }
  split; [reflexivity|].
  destruct (tool_log usage) as [log|]; simpl.
  - repeat split. by eexists.
  - by repeat split.
Qed.
End ToolLog.

(** C4.  A [tool_usage] frame appends one record to [toolUsages], carrying
    the four fields of the frame, and starts nothing.  It appends one entry
    of type ['tool'] to [thinkingLogs] when the text of that entry can be
    built.  When it cannot, because [result] (or [tool_name]) has no string
    conversion, as an object with a property named [toString] has none, the
    call throws after the record was pushed: [toolUsages] has grown by one
    and [thinkingLogs] by none.  Last, the frame
    [{"type": "tool_usage", "agent_name": "Engineer", "tool_name": "Editor",
      "args": {}, "result": {"toString": "x"}}] on a fresh page. *)
Theorem tool_usage_log_is_lost_when_its_text_throws `{Host}
    (data : obj) (w : World) :
  let r := handleMessage (tool_usage data) w in
  (exists record : obj,
     toolUsages (store r.1) = (toolUsages (store w) ++ [record])%list
     /\ get "agent_name" record = get "agent_name" data
     /\ get "tool_name" record = get "tool_name" data
     /\ get "args" record = get "args" data
     /\ get "result" record = get "result" data)
  /\ r.2 = []
  /\ (messages (store r.1) = messages (store w)
      /\ llmCalls (store r.1) = llmCalls (store w)
      /\ currentProject (store r.1) = currentProject (store w)
      /\ currentProjectId (store r.1) = currentProjectId (store w)
      /\ projects (store r.1) = projects (store w))
  /\ (is_Some (tool_log (tool_usage_record data)) ->
      handleMessage_completion (tool_usage data) w = returned
      /\ exists entry : obj,
           thinkingLogs (store r.1) = (thinkingLogs (store w) ++ [entry])%list
           /\ get "type" entry = VStr "tool"
           /\ get "agent_name" entry = get "agent_name" data)
  /\ (forall o : obj,
        get "result" data = VObj o -> has_own "toString" o = true ->
        handleMessage_completion (tool_usage data) w = threw TypeError
        /\ length (toolUsages (store r.1)) = S (length (toolUsages (store w)))
        /\ thinkingLogs (store r.1) = thinkingLogs (store w))
  /\ (let frame :=
        tool_usage
          [ ("type", VStr "tool_usage"); ("agent_name", VStr "Engineer");
            ("tool_name", VStr "Editor"); ("args", VObj []);
            ("result", VObj [("toString", VStr "x")]) ] in
      let after := (handleMessage frame (initial 0)).1 in
      length (toolUsages (store after)) = 1%nat
      /\ thinkingLogs (store after) = []).
Proof.
  intros r. subst r. cbn [handleMessage handleMessage_completion fst snd].
  destruct (addToolUsage_spec (tool_usage_record data) w)
    as (record & Hpush & Hrecord & Hstore & _ & Hlog).
  split.
  { exists record. split; [exact Hpush|]. rewrite Hrecord.
    rewrite !get_set_ne by done. by repeat split. }
  split; [done|].
  split; [by destruct Hstore as (? & ? & ? & ? & ? & ?)|].
  split; [|split].
  - intros [log Hsome]. rewrite Hsome in Hlog.
    destruct Hlog as (Hends & entry & Hentries & Hentry).
    split; [done|]. exists entry. split; [done|].
    destruct (tool_log_shape _ _ Hsome) as [Htype Hagent].
    rewrite Hentry, !get_set_ne by done. by split.
  - intros o Hresult Hown.
    rewrite (tool_log_unprintable_result (tool_usage_record data) o) in Hlog
      by done.
    destruct Hlog as [Hends Hsame].
    split; [done|]. split; [|done]. rewrite Hpush, length_app. simpl. lia.
  - clear. split.
    + destruct (addToolUsage_spec
                  (tool_usage_record
                     [ ("type", VStr "tool_usage"); ("agent_name", VStr "Engineer");
                       ("tool_name", VStr "Editor"); ("args", VObj []);
                       ("result", VObj [("toString", VStr "x")]) ]) (initial 0))
        as (record & Hpush & _).
      cbn [handleMessage fst]. by rewrite Hpush.
    + destruct (addToolUsage_spec
                  (tool_usage_record
                     [ ("type", VStr "tool_usage"); ("agent_name", VStr "Engineer");
                       ("tool_name", VStr "Editor"); ("args", VObj []);
                       ("result", VObj [("toString", VStr "x")]) ]) (initial 0))
        as (record & _ & _ & _ & _ & Hlog).
      rewrite (tool_log_unprintable_result _ [("toString", VStr "x")]) in Hlog
        by done.
      cbn [handleMessage fst]. by destruct Hlog as [_ ->].
Qed.

Lemma fetchProjects_call (w : World) :
  exists k,
    call fetchProjects w
    = (Pending api.getProjects k, on_store (set_loading true) w)
    /\ forall r w0,
         call (k r) w0 = (Settled (fulfilled tt), fetchProjects_reply r w0).
Proof.
  eexists. split; [reflexivity|]. by intros [ps|e] w0.
Qed.









Lemma project_status_starts_refresh `{Host}
    (status text : string) (total_cost : option Q)
    (output_path : option string) (w : World) :
  exists k w',
    handleMessage (project_status status text total_cost output_path) w
    = (on_store (set_loading true) w', [Pending api.getProjects k])
    /\ call fetchProjects w'
       = (Pending api.getProjects k, on_store (set_loading true) w')
    /\ forall r w0,
         call (k r) w0 = (Settled (fulfilled tt), fetchProjects_reply r w0).
Proof.
  unfold handleMessage.
  set (w3 := if String.eqb status "completed" then _ else _).
  destruct (fetchProjects_call w3) as (k & Hcall & Hk).
  exists k, w3. by rewrite Hcall.
Qed.



(** The run of the specification's last testable property: a roster of
    three, a status change of the first employee, and the completion. *)
Example stream_of_a_completed_run :
  let alice := Employee.mk "Alice" "ProductManager" true "" in
  let bob := Employee.mk "Bob" "Architect" true "" in
  let carol := Employee.mk "Carol" "Engineer" true "" in
  let w0 :=
    on_store (set_currentProjectId (Some "P1"))
      (on_store (set_currentProject (Some (sample_project "P1"))) (initial 0)) in
  let w :=
    @handle_all plain_host
      [ connected (Some [alice; bob; carol]);
        agent_status (AgentStatus.mk "Alice" "working" (Some "coding"));
        project_status "completed" "finished" (Some (12345 # 10000)) None ] w0 in
  roster (store w) = [Employee.mk "Alice" "ProductManager" false "coding"; bob; carol]
  /\ Project.status <$> currentProject (store w) = Some "completed"
  /\ Project.total_cost <$> currentProject (store w) = Some (12345 # 10000)
  /\ (get "type" <$> messages (store w)) = [VStr "system"].
Proof. vm_compute. by repeat split. Qed.

(** ** Failing calls *)

Lemma with_error_adds_one (text : string) (w0 : World) :
  notifications (with_error text w0)
  = (notifications w0
       ++ [Notification.mk (S (idCounter w0)) text "error" (now w0)])%list
  /\ idCounter (with_error text w0) = S (idCounter w0)
  /\ store (with_error text w0) = store w0.
Proof. done. Qed.

(** C6, as the code has it.  When the request of [fetchProject],
    [createProject], [updateProject], [deleteProject], [startProject] or
    [stopProject] is rejected with [e], the call adds one notification of
    type ['error'], whose text is a literal of the store and not the message
    of [e], and rejects with [e].  When the request of [fetchProjects] is
    rejected, the call adds one notification of type ['error'] with the text
    of the store and fulfils; the refresh a [project_status] frame starts is
    such a call.  [meanwhile 0] is whatever happened to the page while the
    request was out. *)
Theorem rejected_request_notifies_once
    (net : nat -> forall rq, settled (api.reply rq))
    (meanwhile : nat -> World -> World)
    (e : JsError) (id : string) (data : obj) (w : World) :
  (forall rq, net 0%nat rq = rejected e) ->
  let back := meanwhile 0%nat in
  (run net meanwhile 0 (fetchProject id) w
     = (rejected e,
        on_store (set_loading false)
          (with_error "加载项目详情失败" (back (on_store (set_loading true) w))))
   /\ run net meanwhile 0 (createProject data) w
      = (rejected e, with_error "创建项目失败" (back w))
   /\ run net meanwhile 0 (updateProject id data) w
      = (rejected e, with_error "更新项目失败" (back w))
   /\ run net meanwhile 0 (deleteProject id) w
      = (rejected e, with_error "删除项目失败" (back w))
   /\ run net meanwhile 0 (startProject id) w
      = (rejected e, with_error "启动项目失败" (back w))
   /\ run net meanwhile 0 (stopProject id) w
      = (rejected e, with_error "停止项目失败" (back w)))
  /\ run net meanwhile 0 fetchProjects w
     = (fulfilled tt,
        on_store (set_loading false)
          (with_error "加载项目列表失败" (back (on_store (set_loading true) w))))
  /\ (forall (host : Host) status text total_cost output_path,
        exists k,
          (handleMessage (project_status status text total_cost output_path) w).2
          = [Pending api.getProjects k]
          /\ forall w0,
               call (k (rejected e)) w0
               = (Settled (fulfilled tt),
                  on_store (set_loading false) (with_error "加载项目列表失败" w0)))
  /\ (forall text w0,
        notifications (with_error text w0)
        = (notifications w0
             ++ [Notification.mk (S (idCounter w0)) text "error" (now w0)])%list).
Proof.
  intros Hnet back. split; [|split; [|split]].
  - repeat split; simpl; rewrite Hnet; reflexivity.
  - simpl. rewrite Hnet. reflexivity.
  - intros host status text total_cost output_path.
    destruct (project_status_starts_refresh status text total_cost output_path w)
      as (k & w' & Hk & _ & Hreply).
    exists k. rewrite Hk. split; [done|]. intros w0. by rewrite Hreply.
  - intros text w0. apply with_error_adds_one.
Qed.

Lemma rejected_request_notifies_once_witness :
  let e := @api.request_error plain_host
             (api.mkFailure 409
                (Some (VObj [("detail", VStr "already running")]))) in
  let w := initial 0 in
  e = mkError "already running"
  /\ run (failing e) (fun _ w => w) 0 (startProject "P1") w
     = (rejected e, with_error "启动项目失败" w).
Proof.
  intros e w. split; [reflexivity|].
  apply (rejected_request_notifies_once (failing e) (fun _ w => w) e "P1" [] w).
  intros rq. reflexivity.
Defined.

(** C6, as the specification words it, fails on the refresh: the
    [project_status] frame below starts one, its request is rejected, and
    the page that had no notification has one of type ['error']. *)
Lemma status_refresh_failure_is_notified :
  let r := @handleMessage plain_host
             (project_status "running" "started" None None) (initial 0) in
  notifications r.1 = []
  /\ exists pr,
       r.2 = [pr]
       /\ resume pr (failing (mkError "Failed to fetch") 0%nat) r.1
          = (Settled (fulfilled tt),
             on_store (set_loading false) (with_error "加载项目列表失败" r.1))
       /\ notifications
            (resume pr (failing (mkError "Failed to fetch") 0%nat) r.1).2
          = [Notification.mk 1 "加载项目列表失败" "error" 0].
Proof.
  simpl. split; [reflexivity|]. eexists. split; [reflexivity|]. by split.
Qed.

(** A path the theorem above does not cover: the update goes through, the
    project is the focused one, and the reload that follows is rejected.
    [fetchProject] notifies and rethrows, and the handler of [updateProject]
    notifies again. *)
Example updateProject_reload_failure_notifies_twice :
  let e := mkError "Not Found" in
  let net := fun (n : nat) (rq : api.call) =>
               match rq return settled (api.reply rq) with
               | api.updateProject _ _ => fulfilled VNull
               | _ => rejected e
               end in
  let w := on_store (set_currentProjectId (Some "P1")) (initial 0) in
  let r := run net (fun _ w => w) 0 (updateProject "P1" []) w in
  r.1 = rejected e
  /\ Notification.message <$> notifications r.2
     = ["加载项目详情失败"; "更新项目失败"].
Proof. by split. Qed.

(** ** The notification queue *)

Section Queue.
Import useNotification.

Lemma remove_frame (j : nat) (w : World) :
  timers (remove j w) = timers w /\ idCounter (remove j w) = idCounter w
  /\ now (remove j w) = now w /\ store (remove j w) = store w.
Proof. unfold remove. by destruct (list_find _ _) as [[k n]|]. Qed.

Lemma ids_remove_sublist (j : nat) (w : World) :
  ids (remove j w) `sublist_of` ids w.
Proof.
  unfold remove, ids. destruct (list_find _ _) as [[k n]|]; [|done].
  simpl. apply fmap_sublist, sublist_delete.
Qed.

Lemma ids_remove_split (j : nat) (w : World) :
  ids (remove j w) = ids w /\ j ∉ ids w
  \/ exists front back,
       ids w = (front ++ j :: back)%list
       /\ ids (remove j w) = (front ++ back)%list.
Proof.
  unfold remove, ids.
  destruct (list_find _ _) as [[k n]|] eqn:Hfind.
  - right. apply list_find_Some in Hfind as (Hk & Hid & _).
    exists (Notification.id <$> take k (notifications w)),
           (Notification.id <$> drop (S k) (notifications w)).
    simpl. rewrite delete_take_drop, fmap_app. split; [|done].
    rewrite <- Hid, <- fmap_cons, <- fmap_app. by rewrite take_drop_middle.
  - left. split; [done|]. apply list_find_None in Hfind.
    rewrite Forall_forall in Hfind.
    intros (n & Hid & Hn)%list_elem_of_fmap. by eapply Hfind.
Qed.

Lemma ids_remove_other (i j : nat) (w : World) :
  i <> j -> i ∈ ids (remove j w) <-> i ∈ ids w.
Proof.
  intros Hne.
  destruct (ids_remove_split j w) as [[-> _]|(front & back & -> & ->)]; [done|].
  rewrite !elem_of_app, elem_of_cons. tauto.
Qed.

Lemma ids_remove_same (j : nat) (w : World) :
  NoDup (ids w) -> j ∉ ids (remove j w).
Proof.
  intros Hnd.
  destruct (ids_remove_split j w) as [[-> ?]|(front & back & Hw & ->)]; [done|].
  rewrite Hw in Hnd. apply NoDup_app in Hnd as (_ & Hfront & Hback).
  apply NoDup_cons in Hback as [Hback _].
  rewrite elem_of_app. intros [Hin|Hin]; [|done].
  apply (Hfront j Hin). by left.
Qed.

Lemma fire_frame (tms : list Timer) (w : World) :
  timers (fire tms w) = timers w /\ idCounter (fire tms w) = idCounter w
  /\ now (fire tms w) = now w /\ store (fire tms w) = store w.
Proof.
  revert w. induction tms as [|tm tms IH]; intros w; [done|].
  simpl. destruct (IH (remove (target tm) w)) as (-> & -> & -> & ->).
  apply remove_frame.
Qed.

Lemma ids_fire_sublist (tms : list Timer) (w : World) :
  ids (fire tms w) `sublist_of` ids w.
Proof.
  revert w. induction tms as [|tm tms IH]; intros w; [done|].
  simpl. etrans; [apply IH|apply ids_remove_sublist].
Qed.

Lemma ids_fire_other (i : nat) (tms : list Timer) (w : World) :
  (forall tm, tm ∈ tms -> target tm <> i) ->
  i ∈ ids (fire tms w) <-> i ∈ ids w.
Proof.
  revert w. induction tms as [|tm tms IH]; intros w Hne; [done|].
  simpl. rewrite IH by (intros tm' ?; apply Hne; by right).
  apply ids_remove_other. intros ->. eapply Hne; [by left|done].
Qed.

Lemma ids_fire_target (tm : Timer) (tms : list Timer) (w : World) :
  NoDup (ids w) -> tm ∈ tms -> target tm ∉ ids (fire tms w).
Proof.
  revert w. induction tms as [|tm' tms IH]; intros w Hnd Hin.
  - by apply elem_of_nil in Hin.
  - simpl. apply elem_of_cons in Hin as [->|Hin].
    + intros Hq. eapply elem_of_sublist in Hq; [|apply ids_fire_sublist].
      by apply ids_remove_same in Hq.
    + apply IH; [|done].
      eapply sublist_NoDup; [exact Hnd|apply ids_remove_sublist].
Qed.

Lemma queue_ok_initial (t0 : Z) : queue_ok (initial t0).
Proof.
  repeat split; [constructor|..]; intros ? Hin; by apply elem_of_nil in Hin.
Qed.

Lemma add_spec (m : string) (t : option string) (d : option Z) (w : World) :
  let r := add m t d w in
  r.1 = S (idCounter w)
  /\ idCounter r.2 = S (idCounter w)
  /\ notifications r.2
     = (notifications w
          ++ [Notification.mk (S (idCounter w)) m (default "info" t) (now w)])%list
  /\ timers r.2
     = (if 0 <? default 4000 d
        then timers w ++ [mkTimer (default 4000 d) (now w) (S (idCounter w))]
        else timers w)%list
  /\ now r.2 = now w /\ store r.2 = store w.
Proof. unfold add; simpl. by destruct (0 <? default 4000 d). Qed.

Lemma queue_ok_add m t d (w : World) :
  queue_ok w -> queue_ok (add m t d w).2.
Proof.
  intros (Hnd & Hids & Htms).
  destruct (add_spec m t d w) as (_ & Hc & Hns & Hts & _).
  unfold queue_ok, ids. rewrite Hc, Hns, Hts, fmap_app. simpl.
  split; [|split].
  - apply NoDup_app. split; [done|]. split; [|apply NoDup_singleton].
    intros i Hi ->%list_elem_of_singleton. apply Hids in Hi. lia.
  - intros i [Hi| ->%list_elem_of_singleton]%elem_of_app; [|lia].
    apply Hids in Hi. lia.
  - intros tm Htm. destruct (0 <? default 4000 d).
    + apply elem_of_app in Htm as [Htm| ->%list_elem_of_singleton];
        [apply Htms in Htm; lia|simpl; lia].
    + apply Htms in Htm. lia.
Qed.

Lemma queue_ok_remove j (w : World) : queue_ok w -> queue_ok (remove j w).
Proof.
  intros (Hnd & Hids & Htms).
  destruct (remove_frame j w) as (Ht & Hc & _).
  unfold queue_ok. rewrite Ht, Hc. split; [|split; [|done]].
  - eapply sublist_NoDup; [exact Hnd|apply ids_remove_sublist].
  - intros i Hi. apply Hids. eapply elem_of_sublist; [exact Hi|].
    apply ids_remove_sublist.
Qed.

Lemma elapse_frame dt (w : World) :
  timers (elapse dt w) = filter (fun tm => due (now w + dt) tm = false) (timers w)
  /\ idCounter (elapse dt w) = idCounter w
  /\ now (elapse dt w) = (now w + dt)%Z
  /\ store (elapse dt w) = store w
  /\ ids (elapse dt w) `sublist_of` ids w.
Proof.
  unfold elapse.
  set (w0 := set_timers _ (set_now _ w)).
  destruct (fire_frame (filter (fun tm => due (now w + dt) tm = true) (timers w)) w0)
    as (-> & -> & -> & ->).
  repeat split. apply (ids_fire_sublist _ w0).
Qed.

Lemma queue_ok_elapse dt (w : World) : queue_ok w -> queue_ok (elapse dt w).
Proof.
  intros (Hnd & Hids & Htms).
  destruct (elapse_frame dt w) as (Ht & Hc & _ & _ & Hsub).
  unfold queue_ok. rewrite Ht, Hc. split; [|split].
  - eapply sublist_NoDup; eassumption.
  - intros i Hi. apply Hids. eapply elem_of_sublist; eassumption.
  - intros tm [_ Htm]%list_elem_of_filter. by apply Htms.
Qed.

Lemma queue_ok_apply_ops (ops : list queue_op) (w : World) :
  queue_ok w -> queue_ok (apply_ops ops w).
Proof.
  revert w. induction ops as [|o ops IH]; intros w Hok; [done|].
  simpl. apply IH. destruct o; simpl.
  - by apply queue_ok_add.
  - by apply queue_ok_remove.
  - by apply queue_ok_elapse.
Qed.
End Queue.

Section Expiry.
Import useNotification.

Lemma ids_elapse_other (i : nat) (dt : Z) (w : World) :
  (forall tm, tm ∈ timers w -> due (now w + dt) tm = true -> target tm <> i) ->
  i ∈ ids (elapse dt w) <-> i ∈ ids w.
Proof.
  intros Hne. unfold elapse.
  rewrite ids_fire_other; [done|].
  intros tm [Hdue Htm]%list_elem_of_filter. by apply Hne.
Qed.

Lemma stays_step (i : nat) (o : queue_op) (w : World) :
  stays i w -> o <> q_remove i -> stays i (apply_op o w).
Proof.
  intros (Hq & Hle & Htm) Ho. destruct o as [m t d|j|dt]; cbn [apply_op].
  - destruct (add_spec m t d w) as (_ & Hc & Hns & Hts & _).
    unfold stays, queued, ids. rewrite Hc, Hns, Hts, fmap_app.
    split; [|split].
    + apply elem_of_app. by left.
    + lia.
    + intros tm Hin. destruct (0 <? default 4000 d); [|by apply Htm].
      apply elem_of_app in Hin as [Hin| ->%list_elem_of_singleton];
        [by apply Htm|simpl; lia].
  - destruct (remove_frame j w) as (Ht & Hc & _).
    unfold stays, queued. rewrite Ht, Hc. split; [|done].
    apply ids_remove_other; [|done]. intros ->. by apply Ho.
  - destruct (elapse_frame dt w) as (Ht & Hc & _).
    unfold stays, queued. rewrite Ht, Hc. split; [|split; [done|]].
    + apply ids_elapse_other; [|done]. intros tm Hin _. by apply Htm.
    + intros tm [_ Hin]%list_elem_of_filter. by apply Htm.
Qed.

Lemma stays_apply_ops (i : nat) (ops : list queue_op) (w : World) :
  stays i w -> Forall (fun o => o <> q_remove i) ops ->
  stays i (apply_ops ops w).
Proof.
  revert w. induction ops as [|o ops IH]; intros w Hst Hops; [done|].
  apply Forall_cons in Hops as [Ho Hops].
  simpl. apply IH; [|done]. by apply stays_step.
Qed.

Lemma untimed_notification_stays m t (d : Z) (w : World) :
  queue_ok w -> d <= 0 ->
  timers (add m t (Some d) w).2 = timers w
  /\ stays (add m t (Some d) w).1 (add m t (Some d) w).2.
Proof.
  intros (Hnd & Hids & Htms) Hd.
  destruct (add_spec m t (Some d) w) as (Hi & Hc & Hns & Hts & _).
  change (default 4000 (Some d)) with d in Hts.
  replace (0 <? d) with false in Hts by lia.
  split; [done|]. unfold stays, queued, ids. rewrite Hi, Hc, Hns, Hts, fmap_app.
  split; [|split].
  - apply elem_of_app. right. by left.
  - lia.
  - intros tm Hin. apply Htms in Hin. lia.
Qed.

Lemma timeout_in_range (d : Z) : 0 <= d < 2147483648 -> timeout d = d.
Proof.
  intros Hd. unfold timeout.
  rewrite Z.mod_small by lia. lia.
Qed.

Lemma timeout_out_of_range (d : Z) :
  2147483648 <= d < 4294967296 -> timeout d = 0.
Proof.
  intros Hd. unfold timeout.
  replace (d + 2147483648) with (d - 2147483648 + 1 * 4294967296) by lia.
  rewrite Z.mod_add by lia. rewrite Z.mod_small by lia. lia.
Qed.

Lemma timeout_not_negative (d : Z) : 0 <= timeout d.
Proof. unfold timeout. lia. Qed.

Lemma timed_notification_expires m t (d : Z) (w : World) :
  queue_ok w -> 0 < d ->
  let r := add m t (Some d) w in
  timers r.2 = (timers w ++ [mkTimer d (now w) r.1])%list
  /\ queued r.1 r.2
  /\ (forall dt, dt < timeout d -> queued r.1 (elapse dt r.2))
  /\ (forall dt, timeout d <= dt -> ~ queued r.1 (elapse dt r.2)).
Proof.
  intros Hok Hd r.
  pose proof (queue_ok_add m t (Some d) w Hok) as (Hnd' & _).
  destruct Hok as (Hnd & Hids & Htms).
  destruct (add_spec m t (Some d) w) as (Hi & Hc & Hns & Hts & Hnow & _).
  fold r in Hi, Hc, Hns, Hts, Hnow, Hnd'.
  change (default 4000 (Some d)) with d in Hts.
  replace (0 <? d) with true in Hts by lia.
  assert (Hq : queued r.1 r.2).
  { unfold queued, ids. rewrite Hi, Hns, fmap_app.
    apply elem_of_app. right. by left. }
  split; [by rewrite Hts, Hi|]. split; [done|]. split.
  - intros dt Hdt. unfold queued. apply ids_elapse_other; [|done].
    intros tm Hin Hdue. rewrite Hts in Hin. rewrite Hnow in Hdue.
    apply elem_of_app in Hin as [Hin| ->%list_elem_of_singleton].
    + apply Htms in Hin. rewrite Hi. lia.
    + unfold due in Hdue. cbn [armed_at delay] in Hdue. lia.
  - intros dt Hdt. unfold queued, elapse.
    set (tm := mkTimer d (now w) r.1).
    change r.1 with (target tm).
    apply ids_fire_target; [done|].
    apply list_elem_of_filter. split.
    + unfold due, tm. cbn [armed_at delay]. rewrite Hnow. lia.
    + rewrite Hts. apply elem_of_app. right. subst tm. rewrite Hi. by left.
Qed.
End Expiry.

(** C8.  On any page reached from the first one by calls of [add] and
    [remove] and by time passing:
    - [add] with a duration that is not positive arms no timer, and the
      notification stays on display through whatever follows, as long as
      nobody calls [remove] on its id;
    - [error(message)] arms one timer of 6000 ms for the new id: the
      notification is on display until 6000 ms have passed and gone after;
    - [success], [warning], [info] and [add] itself, called without a
      duration, arm one timer of 4000 ms. *)
Theorem notification_expiry
    (t0 : Z) (history : list queue_op) (message : string)
    (type : option string) :
  let w := apply_ops history (initial t0) in
  (forall (d : Z) (later : list queue_op),
     d <= 0 ->
     let r := useNotification.add message type (Some d) w in
     timers r.2 = timers w
     /\ queued r.1 r.2
     /\ (Forall (fun o => o <> q_remove r.1) later ->
         queued r.1 (apply_ops later r.2)))
  /\ (let r := useNotification.error message None w in
      timers r.2 = (timers w ++ [mkTimer 6000 (now w) r.1])%list
      /\ queued r.1 r.2
      /\ (forall dt, dt < 6000 -> queued r.1 (elapse dt r.2))
      /\ (forall dt, 6000 <= dt -> ~ queued r.1 (elapse dt r.2)))
  /\ (timers (useNotification.success message None w).2
      = (timers w ++ [mkTimer 4000 (now w) (S (idCounter w))])%list
      /\ timers (useNotification.warning message None w).2
         = (timers w ++ [mkTimer 4000 (now w) (S (idCounter w))])%list
      /\ timers (useNotification.info message None w).2
         = (timers w ++ [mkTimer 4000 (now w) (S (idCounter w))])%list
      /\ timers (useNotification.add message type None w).2
         = (timers w ++ [mkTimer 4000 (now w) (S (idCounter w))])%list).
Proof.
  intros w.
  assert (Hok : queue_ok w) by apply queue_ok_apply_ops, queue_ok_initial.
  split; [|split].
  - intros d later Hd r.
    destruct (untimed_notification_stays message type d w Hok Hd) as [Ht Hst].
    split; [done|]. split; [apply Hst|].
    intros Hlater. by apply stays_apply_ops.
  - apply (timed_notification_expires message (Some "error") 6000 w Hok). lia.
  - done.
Qed.

Lemma notification_expiry_witness :
  let w := apply_ops [q_add "saved" (Some "success") None; q_elapse 1000]
                     (initial 0) in
  let r := useNotification.add "connection lost" (Some "info") (Some 0) w in
  queued r.1
    (apply_ops [q_elapse 5000; q_add "failed" (Some "error") None;
                q_elapse 60000; q_remove 1%nat] r.2).
Proof.
  intros w r.
  destruct (notification_expiry 0
              [q_add "saved" (Some "success") None; q_elapse 1000]
              "connection lost" (Some "info")) as [Huntimed _].
  apply (Huntimed 0 [q_elapse 5000; q_add "failed" (Some "error") None;
                     q_elapse 60000; q_remove 1%nat]); [lia|].
  repeat constructor; discriminate.
Defined.

(** ** The detail cursor *)

Import LLMPanel.

Lemma four_digits_upto_9999 :
  forallb four_digits (map Z.of_nat (seq 1 (Z.to_nat 9999))) = true.
Proof. vm_compute. reflexivity. Qed.

Lemma padStart_four_digits (n : Z) :
  1 <= n <= 9999 ->
  String.length (padStart 4 "0" (String_of_int n)) = 4%nat
  /\ read_decimal (padStart 4 "0" (String_of_int n)) = Some n.
Proof.
  intros Hn.
  pose proof four_digits_upto_9999 as Hall.
  rewrite forallb_forall in Hall.
  assert (Hin : In n (map Z.of_nat (seq 1 (Z.to_nat 9999)))).
  { apply in_map_iff. exists (Z.to_nat n). split; [lia|]. apply in_seq. lia. }
  apply Hall in Hin. unfold four_digits in Hin.
  apply andb_prop in Hin as [Hlen Hval].
  split; [by apply Nat.eqb_eq|].
  destruct (read_decimal _) as [m|]; [|done].
  f_equal. by apply Z.eqb_eq.
Qed.

Lemma padStart_nonempty (s : string) : padStart 4 "0" s <> "".
Proof.
  unfold padStart.
  destruct (4 <=? String.length s)%nat eqn:Hlen.
  - apply Nat.leb_le in Hlen. destruct s; [simpl in Hlen; lia|done].
  - apply Nat.leb_gt in Hlen.
    destruct (4 - String.length s)%nat as [|k] eqn:Hk; [lia|]. done.
Qed.

Lemma fetchLLMCall_call (projectId callId : string) (p : Panel) :
  projectId <> "" -> callId <> "" ->
  exists k,
    call (fetchLLMCall projectId callId) p
    = (Pending (GET (call_url projectId callId)) k,
       resetExpandState (set_panel_loading true p)).
Proof.
  intros Hp Hc. unfold fetchLLMCall.
  apply String.eqb_neq in Hp, Hc. rewrite Hp, Hc. simpl.
  eexists. reflexivity.
Qed.

(** C7.  [goToPrev] and [goToNext] return the panel as it is and request
    nothing when their flag is off or the index is at its bound or beyond;
    otherwise they start one request, for the record before or after the one
    on display, whose ordinal goes into the address through
    [String(n).padStart(4, '0')]: four decimal digits for the ordinals 1 to
    9999 of the protocol. *)
Theorem cursor_navigation (projectId : string) (p : Panel) :
  ((hasPrev p = false \/ currentIndex p <= 1) ->
   goToPrev projectId p = (p, []))
  /\ ((hasNext p = false \/ totalCount p <= currentIndex p) ->
      goToNext projectId p = (p, []))
  /\ (projectId <> "" -> hasPrev p = true -> 1 < currentIndex p ->
      exists k,
        goToPrev projectId p
        = (resetExpandState (set_panel_loading true p),
           [Pending
              (GET (call_url projectId
                      (padStart 4 "0" (String_of_int (currentIndex p - 1))))) k])
        /\ (currentIndex p - 1 <= 9999 ->
            String.length (padStart 4 "0" (String_of_int (currentIndex p - 1)))
            = 4%nat
            /\ read_decimal (padStart 4 "0" (String_of_int (currentIndex p - 1)))
               = Some (currentIndex p - 1)))
  /\ (projectId <> "" -> hasNext p = true -> currentIndex p < totalCount p ->
      exists k,
        goToNext projectId p
        = (resetExpandState (set_panel_loading true p),
           [Pending
              (GET (call_url projectId
                      (padStart 4 "0" (String_of_int (currentIndex p + 1))))) k])
        /\ (1 <= currentIndex p + 1 <= 9999 ->
            String.length (padStart 4 "0" (String_of_int (currentIndex p + 1)))
            = 4%nat
            /\ read_decimal (padStart 4 "0" (String_of_int (currentIndex p + 1)))
               = Some (currentIndex p + 1))).
Proof.
  split; [|split; [|split]].
  - intros Hstop. unfold goToPrev.
    replace (hasPrev p && (1 <? currentIndex p)) with false; [done|].
    destruct Hstop as [-> | Hle]; [done|].
    replace (1 <? currentIndex p) with false by lia. by rewrite andb_false_r.
  - intros Hstop. unfold goToNext.
    replace (hasNext p && (currentIndex p <? totalCount p)) with false; [done|].
    destruct Hstop as [-> | Hle]; [done|].
    replace (currentIndex p <? totalCount p) with false by lia.
    by rewrite andb_false_r.
  - intros Hid Hflag Hidx. unfold goToPrev. rewrite Hflag.
    replace (1 <? currentIndex p) with true by lia. cbn [andb].
    destruct (fetchLLMCall_call projectId
                (padStart 4 "0" (String_of_int (currentIndex p - 1))) p Hid
                (padStart_nonempty _)) as [k ->].
    exists k. split; [done|]. intros Hmax. apply padStart_four_digits. lia.
  - intros Hid Hflag Hidx. unfold goToNext. rewrite Hflag.
    replace (currentIndex p <? totalCount p) with true by lia. cbn [andb].
    destruct (fetchLLMCall_call projectId
                (padStart 4 "0" (String_of_int (currentIndex p + 1))) p Hid
                (padStart_nonempty _)) as [k ->].
    exists k. split; [done|]. intros Hmax. by apply padStart_four_digits.
Qed.

Lemma cursor_navigation_witness :
  let p := mkPanel false None 7 12 true true [0%nat] true in
  exists k,
    goToNext "P1" p
    = (mkPanel true None 7 12 true true [] false,
       [Pending (GET "/api/projects/P1/llm-calls/0008") k]).
Proof.
  intros p.
  destruct (cursor_navigation "P1" p) as (_ & _ & _ & Hnext).
  destruct Hnext as [k [Hfetch _]]; [done|done|done|].
  exists k. exact Hfetch.
Defined.

(** Past the bound of the protocol the identifier grows a digit. *)
Example padStart_10000 : padStart 4 "0" (String_of_int 10000) = "10000".
Proof. reflexivity. Qed.

(** ** The connection manager *)

Section Connection.
Variable loc : Location.

Lemma close_not_live (sk : Socket) : live (close sk) = false.
Proof. destruct sk as [u []]; done. Qed.

Lemma disconnect_no_live (c : Conn) i sk :
  conn_ok c -> sockets (disconnect c) !! i = Some sk -> live sk = false.
Proof.
  intros [Hlive _] Hi. unfold disconnect in Hi.
  destruct (ws c) as [j|] eqn:Hws; simpl in Hi.
  - destruct (decide (j = i)) as [->|Hne].
    + rewrite list_lookup_alter_eq in Hi.
      destruct (sockets c !! i) as [sk0|]; [|done].
      injection Hi as <-. apply close_not_live.
    + rewrite list_lookup_alter_ne in Hi by done.
      destruct (live sk) eqn:Hsk; [|done].
      specialize (Hlive i sk Hi Hsk). congruence.
  - destruct (live sk) eqn:Hsk; [|done].
    specialize (Hlive i sk Hi Hsk). congruence.
Qed.

Lemma conn_ok_fresh : conn_ok fresh.
Proof. split; [|done]. intros i sk Hi. by destruct i. Qed.

Lemma conn_ok_disconnect (c : Conn) : conn_ok c -> conn_ok (disconnect c).
Proof.
  intros Hok. split.
  - intros i sk Hi Hsk.
    rewrite (disconnect_no_live c i sk Hok Hi) in Hsk. done.
  - intros _. unfold disconnect. by destruct (ws c).
Qed.

Lemma conn_ok_connect (projectId : string) (c : Conn) :
  conn_ok c -> conn_ok (connect loc projectId c).
Proof.
  intros Hok. unfold connect. split; [|done].
  cbn [sockets ws]. intros i sk Hi Hsk.
  apply lookup_app_Some in Hi as [Hi|[Hlen Hi]].
  - rewrite (disconnect_no_live c i sk Hok Hi) in Hsk. done.
  - f_equal. apply list_lookup_singleton_Some in Hi as [Hi _]. lia.
Qed.

Lemma conn_ok_onopen (i : nat) (c : Conn) : conn_ok c -> conn_ok (onopen i c).
Proof.
  intros [Hlive Hflag]. unfold onopen.
  destruct (sockets c !! i) as [[u []]|] eqn:Hi; try done.
  pose proof (Hlive i _ Hi eq_refl) as Hws.
  split; cbn [sockets ws isConnected]; [|by rewrite Hws].
  intros j sk Hj Hsk.
  destruct (decide (i = j)) as [<-|Hne]; [done|].
  rewrite list_lookup_insert_ne in Hj by done. by apply (Hlive j sk).
Qed.

Lemma conn_ok_onclose (i : nat) (c : Conn) : conn_ok c -> conn_ok (onclose i c).
Proof.
  intros [Hlive Hflag]. unfold onclose.
  destruct (sockets c !! i) as [[u st]|] eqn:Hi; [|done].
  assert (Hgoal : conn_ok (mkConn (<[i := mkSocket u CLOSED]> (sockets c))
                                  (ws c) false)).
  { split; cbn [sockets ws isConnected]; [|done].
    intros j sk Hj Hsk.
    destruct (decide (i = j)) as [<-|Hne].
    - rewrite list_lookup_insert_eq in Hj
        by (eapply lookup_lt_Some; eassumption).
      by injection Hj as <-.
    - rewrite list_lookup_insert_ne in Hj by done. by apply (Hlive j sk). }
  by destruct st.
Qed.

Lemma conn_ok_peer_closes (i : nat) (c : Conn) :
  conn_ok c -> conn_ok (peer_closes i c).
Proof.
  intros [Hlive Hflag]. unfold peer_closes.
  destruct (sockets c !! i) as [[u []]|] eqn:Hi; try done.
  split; cbn [sockets ws isConnected]; [|done].
  intros j sk Hj Hsk.
  destruct (decide (i = j)) as [<-|Hne].
  - rewrite list_lookup_insert_eq in Hj
      by (eapply lookup_lt_Some; eassumption).
    by injection Hj as <-.
  - rewrite list_lookup_insert_ne in Hj by done. by apply (Hlive j sk).
Qed.




Lemma disconnect_open_count (c : Conn) :
  conn_ok c -> open_count (disconnect c) = 0%nat.
Proof.
  intros Hok. unfold open_count.
  replace (filter _ _) with (@nil Socket); [done|].
  symmetry. apply filter_none. intros sk Hsk Hlive.
  apply list_elem_of_lookup in Hsk as [j Hj].
  rewrite (disconnect_no_live c j sk Hok Hj) in Hlive. done.
Qed.

Lemma disconnect_idempotent (c : Conn) :
  disconnect (disconnect c) = disconnect c.
Proof. unfold disconnect. by destruct (ws c). Qed.
End Connection.



(** * More properties *)

(** ** The notification queue, continued *)

Section FilterAll.
Context {A : Type} (P : A -> Prop) `{!forall x, Decision (P x)}.

Lemma filter_all (l : list A) : (forall x, x ∈ l -> P x) -> filter P l = l.
Proof.
  induction l as [|x l IH]; intros Hl; [done|].
  rewrite filter_cons. destruct (decide (P x)) as [_|Hx].
  - f_equal. apply IH. intros y Hy. apply Hl. by right.
  - destruct Hx. apply Hl. by left.
Qed.
End FilterAll.

Lemma delete_found_as_filter {A : Type} (f : A -> nat) (l : list A)
    (j k : nat) (n : A) :
  NoDup (f <$> l) ->
  list_find (fun x => f x = j) l = Some (k, n) ->
  delete k l = filter (fun x => f x <> j) l.
Proof.
  revert k. induction l as [|x l IH]; intros k Hnd Hfind.
  - by apply list_find_Some in Hfind as [Hk _].
  - rewrite fmap_cons in Hnd. apply NoDup_cons in Hnd as [Hx Hnd].
    apply list_find_Some in Hfind as (Hk & Hn & Hfirst).
    rewrite filter_cons. destruct k as [|k].
    + injection Hk as ->. destruct (decide (f n <> j)) as [Hne|_]; [done|].
      simpl. symmetry. apply filter_all. intros y Hy Hfy. apply Hx.
      rewrite Hn, <- Hfy. by apply list_elem_of_fmap_2.
    + assert (Hxj : f x <> j) by (apply (Hfirst 0%nat x); [done|lia]).
      destruct (decide (f x <> j)) as [_|Hc]; [|done].
      simpl. f_equal. apply IH; [done|].
      apply list_find_Some. split; [done|]. split; [done|].
      intros i y Hi Hlt. apply (Hfirst (S i) y); [done|lia].
Qed.

Section QueueMore.
Import useNotification.

Lemma remove_as_filter (j : nat) (w : World) :
  NoDup (ids w) ->
  remove j w
  = set_notifications
      (filter (fun n => Notification.id n <> j) (notifications w)) w.
Proof.
  intros Hnd. unfold remove.
  destruct (list_find _ _) as [[k n]|] eqn:Hfind.
  - f_equal. by eapply delete_found_as_filter.
  - apply list_find_None in Hfind. rewrite Forall_forall in Hfind.
    rewrite filter_all by (intros n Hn; by apply Hfind).
    by destruct w.
Qed.

Lemma fire_as_filter (tms : list Timer) (w : World) :
  NoDup (ids w) ->
  fire tms w
  = set_notifications
      (filter (fun n => Notification.id n ∉ target <$> tms) (notifications w)) w.
Proof.
  revert w. induction tms as [|tm tms IH]; intros w Hnd.
  - simpl. rewrite filter_all by (intros n _; apply not_elem_of_nil).
    by destruct w.
  - change (fire (tm :: tms) w) with (fire tms (remove (target tm) w)).
    rewrite IH
      by (eapply sublist_NoDup; [exact Hnd|apply ids_remove_sublist]).
    rewrite remove_as_filter by done.
    destruct w as [t d ts ns k st]; unfold set_notifications; simpl.
    f_equal. rewrite list_filter_filter. apply list_filter_iff.
    intros n. rewrite elem_of_cons. tauto.
Qed.

Lemma idCounter_apply_ops (ops : list queue_op) (w : World) :
  (idCounter w <= idCounter (apply_ops ops w))%nat.
Proof.
  revert w. induction ops as [|o ops IH]; intros w; [done|].
  simpl. etrans; [|apply IH]. destruct o as [m t d|j|dt]; cbn [apply_op].
  - destruct (add_spec m t d w) as (_ & -> & _). lia.
  - by destruct (remove_frame j w) as (_ & -> & _).
  - by destruct (elapse_frame dt w) as (_ & -> & _).
Qed.
End QueueMore.

(** X1.  Ids are issued in increasing order and never again: of two calls
    of [add], whatever is added, removed or expires between them, the later
    one returns the larger id; the notifications on display never share an
    id and none is ahead of the counter. *)
Theorem ids_are_never_reused
    (t0 : Z) (history later : list queue_op)
    (m m' : string) (t t' : option string) (d d' : option Z) :
  let w := apply_ops history (initial t0) in
  let r := useNotification.add m t d w in
  let r' := useNotification.add m' t' d' (apply_ops later r.2) in
  (r.1 < r'.1)%nat
  /\ (r'.1 ∉ ids (apply_ops later r.2))
  /\ NoDup (ids r'.2)
  /\ (forall i, i ∈ ids r'.2 -> (i <= r'.1)%nat).
Proof.
  intros w r r'.
  assert (Hok : queue_ok w) by apply queue_ok_apply_ops, queue_ok_initial.
  assert (Hok1 : queue_ok (apply_ops later r.2))
    by apply queue_ok_apply_ops, queue_ok_add, Hok.
  pose proof (queue_ok_add m' t' d' _ Hok1) as (Hnd & Hids & _).
  destruct (add_spec m t d w) as (Hi & Hc & _).
  destruct (add_spec m' t' d' (apply_ops later r.2)) as (Hi' & Hc' & _).
  fold r in Hi, Hc. fold r' in Hi', Hc', Hnd, Hids.
  pose proof (idCounter_apply_ops later r.2) as Hmono.
  split; [lia|]. split; [|split; [done|]].
  - intros Hin. destruct Hok1 as (_ & Hle & _). apply Hle in Hin. lia.
  - intros i Hin. apply Hids in Hin. lia.
Qed.

(** X2.  On any page the queue can reach, [remove(id)] takes the
    notification with that id off the display and keeps the others in their
    order; it does nothing when the id is not on display, so a second
    [remove] changes nothing; and it leaves the timers armed. *)
Theorem remove_takes_one_notification
    (t0 : Z) (history : list queue_op) (id : nat) :
  let w := apply_ops history (initial t0) in
  notifications (useNotification.remove id w)
  = filter (fun n => Notification.id n <> id) (notifications w)
  /\ (id ∉ ids w -> useNotification.remove id w = w)
  /\ useNotification.remove id (useNotification.remove id w)
     = useNotification.remove id w
  /\ timers (useNotification.remove id w) = timers w.
Proof.
  intros w.
  assert (Hok : queue_ok w) by apply queue_ok_apply_ops, queue_ok_initial.
  destruct Hok as (Hnd & _).
  assert (Habsent : forall w0, id ∉ ids w0 -> useNotification.remove id w0 = w0).
  { intros w0 Hid. unfold useNotification.remove.
    rewrite list_find_absent; [done|].
    intros n Hn Heq. apply Hid. rewrite <- Heq. by apply list_elem_of_fmap_2. }
  split; [by rewrite remove_as_filter|]. split; [apply Habsent|].
  split; [apply Habsent; by apply ids_remove_same|apply remove_frame].
Qed.

Lemma remove_takes_one_notification_witness :
  let w := apply_ops [q_add "a" None None; q_remove 1%nat] (initial 0) in
  useNotification.remove 1 w = w.
Proof.
  intros w.
  destruct (remove_takes_one_notification 0
              [q_add "a" None None; q_remove 1%nat] 1) as (_ & Habsent & _).
  apply Habsent. vm_compute. apply not_elem_of_nil.
Defined.

(** X3.  Letting time pass takes off the display the notifications whose
    timer is due by then, keeps the others in their order, and keeps the
    timers that are not due.  The callbacks of the due timers can run in any
    order: the page they leave is the same.  A timer is due once the delay
    [setTimeout] kept of the duration has passed: a notification added with
    a positive duration is on display before that and gone from then on.
    The delay kept is the duration itself below [2^31] and 0 from [2^31] to
    [2^32], so a notification added with such a duration is gone as soon as
    the timers run. *)
Theorem elapse_removes_what_is_due
    (t0 : Z) (history : list queue_op) (dt : Z) :
  let w := apply_ops history (initial t0) in
  elapse dt w
  = set_notifications
      (filter (fun n => Notification.id n ∉ due_targets (now w + dt) w)
              (notifications w))
      (set_timers (filter (fun tm => due (now w + dt) tm = false) (timers w))
                  (set_now (now w + dt) w))
  /\ (forall tms tms', tms ≡ₚ tms' -> fire tms w = fire tms' w)
  /\ (forall (message : string) (type : option string) (d : Z),
        0 < d ->
        let r := useNotification.add message type (Some d) w in
        (forall dt', dt' < timeout d -> queued r.1 (elapse dt' r.2))
        /\ (forall dt', timeout d <= dt' -> ~ queued r.1 (elapse dt' r.2)))
  /\ (forall d, 0 <= d < 2147483648 -> timeout d = d)
  /\ (forall d, 2147483648 <= d < 4294967296 -> timeout d = 0).
Proof.
  intros w.
  assert (Hok : queue_ok w) by apply queue_ok_apply_ops, queue_ok_initial.
  split; [|split; [|split; [|split]]].
  - destruct Hok as (Hnd & _). unfold elapse. by rewrite fire_as_filter.
  - destruct Hok as (Hnd & _).
    intros tms tms' Hperm. rewrite !fire_as_filter by done. f_equal.
    apply list_filter_iff. intros n. by rewrite Hperm.
  - intros message type d Hd r.
    by destruct (timed_notification_expires message type d w Hok Hd)
      as (_ & _ & Hbefore & Hafter).
  - apply timeout_in_range.
  - apply timeout_out_of_range.
Qed.

(** X4.  Time passing in two steps, the second not backwards, leaves the
    page that time passing in one step leaves. *)
Theorem elapse_composes
    (t0 : Z) (history : list queue_op) (dt1 dt2 : Z) :
  0 <= dt2 ->
  let w := apply_ops history (initial t0) in
  elapse dt2 (elapse dt1 w) = elapse (dt1 + dt2) w.
Proof.
  intros Hdt w.
  assert (Hok : queue_ok w) by apply queue_ok_apply_ops, queue_ok_initial.
  pose proof (queue_ok_elapse dt1 w Hok) as (Hnd1 & _).
  destruct Hok as (Hnd & _).
  assert (Hlater : forall tm, due (now w + dt1) tm = true ->
                         due (now w + dt1 + dt2) tm = true).
  { intros tm. unfold due. lia. }
  unfold elapse at 1. rewrite fire_as_filter by done.
  unfold elapse. rewrite !fire_as_filter by done.
  destruct w as [t d ts ns k st]; unfold set_notifications, set_timers, set_now;
    simpl.
  rewrite Z.add_assoc. f_equal.
  - rewrite list_filter_filter. apply list_filter_iff. intros tm.
    specialize (Hlater tm). simpl in Hlater.
    destruct (due (t + dt1) tm), (due (t + dt1 + dt2) tm); intuition congruence.
  - rewrite list_filter_filter. apply list_filter_iff. intros n.
    rewrite !list_elem_of_fmap. split.
    + intros [Hlate Hearly] (tm & Hid & Htm).
      apply list_elem_of_filter in Htm as [Hdue Htm].
      destruct (due (t + dt1) tm) eqn:Hfirst.
      * apply Hearly. exists tm. split; [done|].
        apply list_elem_of_filter. by split.
      * apply Hlate. exists tm. split; [done|].
        apply list_elem_of_filter. split; [done|].
        apply list_elem_of_filter. by split.
    + intros Hnone. split.
      * intros (tm & Hid & Htm).
        apply list_elem_of_filter in Htm as [Hdue Htm].
        apply list_elem_of_filter in Htm as [_ Htm].
        apply Hnone. exists tm. split; [done|].
        apply list_elem_of_filter. by split.
      * intros (tm & Hid & Htm).
        apply list_elem_of_filter in Htm as [Hdue Htm].
        apply Hnone. exists tm. split; [done|].
        apply list_elem_of_filter. split; [|done].
        specialize (Hlater tm). simpl in Hlater. by apply Hlater.
Qed.

Lemma elapse_composes_witness :
  let w := apply_ops [q_add "a" None None; q_add "b" (Some "error") (Some 6000)]
                     (initial 0) in
  elapse 3000 (elapse 2500 w) = elapse (2500 + 3000) w.
Proof.
  apply (elapse_composes 0
           [q_add "a" None None; q_add "b" (Some "error") (Some 6000)]
           2500 3000).
  lia.
Defined.

(** ** The actions of the project store, on every path *)

(** X5.  [fetchProjects] and [fetchProject] each send one request and leave
    [loading] false whatever the reply and whatever happened to the page
    during the wait.  [fetchProjects] always fulfils; on a list it replaces
    [projects] and notifies nothing.  [fetchProject] fulfils on a project,
    which becomes the focus under the id asked for, and rejects with the
    error of the request otherwise, leaving the focus as it found it. *)
Theorem fetches_end_with_loading_false
    (net : nat -> forall rq, settled (api.reply rq))
    (meanwhile : nat -> World -> World) (id : string) (w : World) :
  let back := meanwhile 0%nat (on_store (set_loading true) w) in
  let r := run net meanwhile 0 fetchProjects w in
  let r' := run net meanwhile 0 (fetchProject id) w in
  (r.1 = fulfilled tt
   /\ loading (store r.2) = false
   /\ journal net meanwhile 0 fetchProjects w = [api.getProjects]
   /\ forall ps, net 0%nat api.getProjects = fulfilled ps ->
        r.2 = on_store (set_loading false) (on_store (set_projects ps) back))
  /\ (loading (store r'.2) = false
      /\ journal net meanwhile 0 (fetchProject id) w = [api.getProject id]
      /\ (forall p, net 0%nat (api.getProject id) = fulfilled p ->
            r' = (fulfilled tt,
                  on_store (set_loading false)
                    (on_store (set_currentProjectId (Some id))
                       (on_store (set_currentProject (Some p)) back))))
      /\ (forall e, net 0%nat (api.getProject id) = rejected e ->
            r'.1 = rejected e
            /\ currentProject (store r'.2) = currentProject (store back)
            /\ currentProjectId (store r'.2) = currentProjectId (store back))).
Proof.
  intros back r r'. subst back r r'. split.
  - simpl. destruct (net 0%nat api.getProjects) as [ps|e]; simpl;
      repeat split; intros; by simplify_eq.
  - simpl. destruct (net 0%nat (api.getProject id)) as [p|e]; simpl;
      repeat split; intros; by simplify_eq.
Qed.

Lemma fetches_end_with_loading_false_witness :
  let p := sample_project "P1" in
  let net := fun (n : nat) (rq : api.call) =>
               match rq return settled (api.reply rq) with
               | api.getProject _ => fulfilled p
               | _ => rejected (mkError "offline")
               end in
  run net (fun _ w => w) 0 (fetchProject "P1") (initial 0)
  = (fulfilled tt,
     on_store (set_loading false)
       (on_store (set_currentProjectId (Some "P1"))
          (on_store (set_currentProject (Some p))
             (on_store (set_loading true) (initial 0))))).
Proof.
  intros p net.
  destruct (fetches_end_with_loading_false net (fun _ w => w) "P1" (initial 0))
    as (_ & _ & _ & Hok & _).
  apply (Hok p). reflexivity.
Defined.

(** X6.  When its request is fulfilled, [createProject] refreshes the list
    and fulfils with the created project whether the refresh succeeds or
    not: a failed refresh is notified as an error, and the success is
    notified after it.  The focus is not moved to the new project. *)
Theorem createProject_fulfils_with_the_project
    (net : nat -> forall rq, settled (api.reply rq))
    (meanwhile : nat -> World -> World)
    (data : obj) (project : Project.t) (w : World) :
  net 0%nat (api.createProject data) = fulfilled project ->
  let w2 := meanwhile 1%nat (on_store (set_loading true) (meanwhile 0%nat w)) in
  let r := run net meanwhile 0 (createProject data) w in
  r.1 = fulfilled project
  /\ journal net meanwhile 0 (createProject data) w
     = [api.createProject data; api.getProjects]
  /\ (forall ps, net 1%nat api.getProjects = fulfilled ps ->
        r.2 = snd (useNotification.success "项目创建成功！" None
                     (on_store (set_loading false)
                        (on_store (set_projects ps) w2))))
  /\ (forall e, net 1%nat api.getProjects = rejected e ->
        r.2 = snd (useNotification.success "项目创建成功！" None
                     (on_store (set_loading false)
                        (with_error "加载项目列表失败" w2)))
        /\ Notification.type <$> notifications r.2
           = ((Notification.type <$> notifications w2)
                ++ ["error"; "success"])%list)
  /\ currentProject (store r.2) = currentProject (store w2)
  /\ currentProjectId (store r.2) = currentProjectId (store w2).
Proof.
  intros Hcreate w2 r. subst w2 r. simpl. rewrite Hcreate. simpl.
  destruct (net 1%nat api.getProjects) as [ps|e]; simpl;
    repeat split; intros; simplify_eq; try done.
  rewrite !fmap_app, <- !app_assoc. done.
Qed.

Lemma createProject_fulfils_with_the_project_witness :
  let p := sample_project "P7" in
  let net := fun (n : nat) (rq : api.call) =>
               match rq return settled (api.reply rq) with
               | api.createProject _ => fulfilled p
               | _ => rejected (mkError "offline")
               end in
  (run net (fun _ w => w) 0 (createProject []) (initial 0)).1 = fulfilled p.
Proof.
  intros p net.
  apply (createProject_fulfils_with_the_project net (fun _ w => w) [] p (initial 0)).
  reflexivity.
Defined.





(** X9.  [startProject] and [stopProject], when their request is
    fulfilled, only notify: a success for the start, a warning for the stop,
    each for 4000 ms.  They do not touch the store: the status of the
    project changes when a [project_status] frame says so. *)
Theorem start_and_stop_only_notify
    (net : nat -> forall rq, settled (api.reply rq))
    (meanwhile : nat -> World -> World)
    (id : string) (w : World) :
  let back := meanwhile 0%nat w in
  (forall reply, net 0%nat (api.startProject id) = fulfilled reply ->
     let r := run net meanwhile 0 (startProject id) w in
     r.1 = fulfilled tt
     /\ store r.2 = store back
     /\ notifications r.2
        = (notifications back
             ++ [Notification.mk (S (idCounter back)) "项目开始运行！" "success"
                                 (now back)])%list
     /\ timers r.2
        = (timers back ++ [mkTimer 4000 (now back) (S (idCounter back))])%list)
  /\ (forall reply, net 0%nat (api.stopProject id) = fulfilled reply ->
        let r := run net meanwhile 0 (stopProject id) w in
        r.1 = fulfilled tt
        /\ store r.2 = store back
        /\ notifications r.2
           = (notifications back
                ++ [Notification.mk (S (idCounter back)) "项目已停止" "warning"
                                    (now back)])%list
        /\ timers r.2
           = (timers back ++ [mkTimer 4000 (now back) (S (idCounter back))])%list).
Proof.
  intros back. subst back. split; intros reply Hreply; simpl; by rewrite Hreply.
Qed.

Lemma start_and_stop_only_notify_witness :
  let net := fun (n : nat) (rq : api.call) =>
               match rq return settled (api.reply rq) with
               | api.getProjects => fulfilled []
               | api.getProject i | api.createProject i => rejected (mkError "")
               | _ => fulfilled VNull
               end in
  store (run net (fun _ w => w) 0 (startProject "P1") (initial 0)).2
  = store (initial 0).
Proof.
  intros net.
  destruct (start_and_stop_only_notify net (fun _ w => w) "P1" (initial 0))
    as [Hstart _].
  by apply (Hstart VNull).
Defined.

Lemma unfocused_store_is_fixed
    (employees : option (list Employee.t)) (status : string) (cost : Q)
    (data : AgentStatus.t) (s : Store) :
  currentProject s = None -> currentProjectId s = None ->
  updateEmployees employees s = s /\ updateStatus status s = s
  /\ updateCost cost s = s /\ updateEmployeeStatus data s = s.
Proof.
  intros Hcp Hid.
  unfold updateEmployees, updateStatus, updateCost, updateEmployeeStatus.
  rewrite Hcp; simpl.
  rewrite list_find_absent; [done|]. intros p _. by rewrite Hid.
Qed.

(** X10.  [reset] releases the focus and empties the four telemetry
    sequences, and keeps the summary list and the loading flag.  It is
    idempotent, it absorbs [clearMessages] on either side, and the frames
    that still arrive after it find no project to update. *)
Theorem reset_releases_focus_and_telemetry
    (s : Store) (employees : option (list Employee.t)) (status : string)
    (cost : Q) (data : AgentStatus.t) :
  (currentProject (reset s) = None /\ currentProjectId (reset s) = None
   /\ messages (reset s) = [] /\ thinkingLogs (reset s) = []
   /\ llmCalls (reset s) = [] /\ toolUsages (reset s) = [])
  /\ (projects (reset s) = projects s /\ loading (reset s) = loading s)
  /\ reset (reset s) = reset s
  /\ (reset (clearMessages s) = reset s /\ clearMessages (reset s) = reset s)
  /\ (updateEmployees employees (reset s) = reset s
      /\ updateStatus status (reset s) = reset s
      /\ updateCost cost (reset s) = reset s
      /\ updateEmployeeStatus data (reset s) = reset s)
  /\ isRunning (reset s) = false.
Proof.
  pose proof (unfocused_store_is_fixed employees status cost data (reset s)
                eq_refl eq_refl) as (He & Hs & Hc & Hd).
  repeat split; done.
Qed.

(** ** Streams of frames *)

Lemma telemetry_updateStatus (status : string) (s : Store) :
  telemetry (updateStatus status s) = telemetry s.
Proof.
  unfold updateStatus.
  destruct (currentProject s); simpl; by destruct (list_find _ _) as [[i q]|].
Qed.

Lemma telemetry_updateCost (c : Q) (s : Store) :
  telemetry (updateCost c s) = telemetry s.
Proof.
  unfold updateCost.
  destruct (currentProject s); simpl; by destruct (list_find _ _) as [[i q]|].
Qed.

Lemma telemetry_updateEmployees es (s : Store) :
  telemetry (updateEmployees es s) = telemetry s.
Proof. unfold updateEmployees. by destruct (currentProject s). Qed.

Lemma telemetry_updateEmployeeStatus data (s : Store) :
  telemetry (updateEmployeeStatus data s) = telemetry s.
Proof.
  unfold updateEmployeeStatus.
  destruct (currentProject s) as [p|]; [|done].
  destruct (Project.employees p); [|done].
  by destruct (list_find _ _) as [[i q]|].
Qed.

Lemma telemetry_assign_output_path path (s : Store) :
  telemetry (assign_output_path path s) = telemetry s.
Proof. unfold assign_output_path. by destruct (currentProject s). Qed.

(** One frame: what each sequence gains. *)
Lemma frame_appends `{Host} (f : event) (w : World) :
  exists ms ts ls us,
    telemetry (store (handleMessage f w).1)
    = ((messages (store w) ++ ms)%list, (thinkingLogs (store w) ++ ts)%list,
       (llmCalls (store w) ++ ls)%list, (toolUsages (store w) ++ us)%list)
    /\ length ms = count_frames to_messages [f]
    /\ length ts = count_frames to_thinkingLogs [f]
    /\ length ls = count_frames to_llmCalls [f]
    /\ length us = count_frames to_toolUsages [f].
Proof.
  assert (Hnone : forall s : Store,
            telemetry s
            = ((messages s ++ [])%list, (thinkingLogs s ++ [])%list,
               (llmCalls s ++ [])%list, (toolUsages s ++ [])%list)).
  { intros s. unfold telemetry. by rewrite !app_nil_r. }
  destruct f as [es|data|data|data|data tc|data|tc|status text tc op|es|tag];
    cbn [handleMessage].
  - exists [], [], [], []. split; [|done].
    destruct es; cbn [fst]; [|apply Hnone].
    change (store (on_store ?f w)) with (f (store w)).
    rewrite telemetry_updateEmployees. apply Hnone.
  - eexists [_], [], [], []. split; [|done].
    unfold addMessage, telemetry. simpl. by rewrite !app_nil_r.
  - exists [], [], [], []. split; [|done]. cbn [fst].
    change (store (on_store ?f w)) with (f (store w)).
    rewrite telemetry_updateEmployeeStatus. apply Hnone.
  - eexists [], [_], [], []. split; [|done].
    unfold addThinking, telemetry. simpl. by rewrite !app_nil_r.
  - eexists [], [], [_], []. split; [|done].
    destruct tc as [c|]; cbn [fst].
    + change (store (on_store ?f ?w0)) with (f (store w0)).
      rewrite telemetry_updateCost.
      unfold addLLMCall, telemetry. simpl. by rewrite !app_nil_r.
    + unfold addLLMCall, telemetry. simpl. by rewrite !app_nil_r.
  - unfold count_frames. cbn [List.filter to_messages to_thinkingLogs
                              to_llmCalls to_toolUsages length].
    unfold addToolUsage.
    destruct (tool_log (tool_usage_record data)) as [log|] eqn:Hlog.
    + rewrite bool_decide_true by (by eexists).
      eexists [], [_], [], [_]. split; [|done].
      unfold addThinking, telemetry. simpl. by rewrite !app_nil_r.
    + rewrite bool_decide_false by (by intros [? ?]).
      eexists [], [], [], [_]. split; [|done].
      unfold telemetry. simpl. by rewrite !app_nil_r.
  - exists [], [], [], []. split; [|done].
    destruct tc as [c|]; cbn [fst]; [|apply Hnone].
    change (store (on_store ?f w)) with (f (store w)).
    rewrite telemetry_updateCost. apply Hnone.
  - eexists [_], [], [], []. split; [|done].
    set (w3 := if String.eqb status "completed" then _ else _).
    destruct (fetchProjects_call w3) as (k & -> & _). cbn [fst].
    change (telemetry (store (on_store (set_loading true) w3)))
      with (telemetry (store w3)).
    subst w3.
    assert (Hbase : telemetry
              (store (addMessage
                        [("type", VStr "system"); ("content", VStr text);
                         ("sent_from", VStr "System")]
                        (on_store (updateStatus status) w)))
            = ((messages (store w)
                  ++ [[("type", VStr "system"); ("content", VStr text);
                       ("sent_from", VStr "System");
                       ("timestamp",
                        now_iso (on_store (updateStatus status) w))]])%list,
               (thinkingLogs (store w) ++ [])%list,
               (llmCalls (store w) ++ [])%list,
               (toolUsages (store w) ++ [])%list)).
    { unfold addMessage. cbn [store on_store].
      pose proof (telemetry_updateStatus status (store w)) as Hst.
      unfold telemetry in *. simpl in *. rewrite !app_nil_r.
      by injection Hst as -> -> -> ->. }
    destruct (String.eqb status "completed"); [destruct tc as [c|]|];
      try exact Hbase.
    change (store (on_store ?f (on_store ?g ?w0))) with (f (g (store w0))).
    rewrite telemetry_assign_output_path, telemetry_updateCost. exact Hbase.
  - exists [], [], [], []. split; [|done]. cbn [fst].
    change (store (on_store ?f w)) with (f (store w)).
    rewrite telemetry_updateEmployees. apply Hnone.
  - exists [], [], [], []. split; [|done]. apply Hnone.
Qed.

Lemma projects_ids_insert (ps : list Project.t) (i : nat) (p q : Project.t) :
  ps !! i = Some p -> Project.id q = Project.id p ->
  Project.id <$> <[i := q]> ps = Project.id <$> ps.
Proof.
  intros Hi Hid. rewrite list_fmap_insert, Hid.
  apply list_insert_id. by rewrite list_lookup_fmap, Hi.
Qed.

Lemma store_identity_updateStatus (status : string) (s : Store) :
  currentProjectId (updateStatus status s) = currentProjectId s
  /\ Project.id <$> currentProject (updateStatus status s)
     = Project.id <$> currentProject s
  /\ Project.id <$> projects (updateStatus status s) = Project.id <$> projects s.
Proof.
  unfold updateStatus.
  set (s1 := match currentProject s with Some _ => _ | None => _ end).
  assert (H1 : currentProjectId s1 = currentProjectId s
               /\ Project.id <$> currentProject s1 = Project.id <$> currentProject s
               /\ projects s1 = projects s)
    by (subst s1; destruct (currentProject s) eqn:E; simpl; by rewrite ?E).
  destruct H1 as (Hid & Hcp & Hps). clearbody s1.
  destruct (list_find _ _) as [[i q]|] eqn:Hf; simpl;
    rewrite ?Hid, ?Hcp, ?Hps; [|done].
  repeat split. apply list_find_Some in Hf as (Hi & _). rewrite Hps in Hi.
  by apply (projects_ids_insert _ _ q).
Qed.

Lemma store_identity_updateCost (c : Q) (s : Store) :
  currentProjectId (updateCost c s) = currentProjectId s
  /\ Project.id <$> currentProject (updateCost c s)
     = Project.id <$> currentProject s
  /\ Project.id <$> projects (updateCost c s) = Project.id <$> projects s.
Proof.
  unfold updateCost.
  set (s1 := match currentProject s with Some _ => _ | None => _ end).
  assert (H1 : currentProjectId s1 = currentProjectId s
               /\ Project.id <$> currentProject s1 = Project.id <$> currentProject s
               /\ projects s1 = projects s)
    by (subst s1; destruct (currentProject s) eqn:E; simpl; by rewrite ?E).
  destruct H1 as (Hid & Hcp & Hps). clearbody s1.
  destruct (list_find _ _) as [[i q]|] eqn:Hf; simpl;
    rewrite ?Hid, ?Hcp, ?Hps; [|done].
  repeat split. apply list_find_Some in Hf as (Hi & _). rewrite Hps in Hi.
  by apply (projects_ids_insert _ _ q).
Qed.

Lemma store_identity_updateEmployees es (s : Store) :
  currentProjectId (updateEmployees es s) = currentProjectId s
  /\ Project.id <$> currentProject (updateEmployees es s)
     = Project.id <$> currentProject s
  /\ Project.id <$> projects (updateEmployees es s) = Project.id <$> projects s.
Proof.
  unfold updateEmployees. destruct (currentProject s) eqn:E; simpl; by rewrite ?E.
Qed.

Lemma store_identity_updateEmployeeStatus data (s : Store) :
  currentProjectId (updateEmployeeStatus data s) = currentProjectId s
  /\ Project.id <$> currentProject (updateEmployeeStatus data s)
     = Project.id <$> currentProject s
  /\ Project.id <$> projects (updateEmployeeStatus data s)
     = Project.id <$> projects s.
Proof.
  unfold updateEmployeeStatus.
  destruct (currentProject s) as [p|] eqn:Hp; [|by rewrite Hp].
  destruct (Project.employees p); [|by rewrite Hp].
  destruct (list_find _ _) as [[i q]|]; simpl; by rewrite ?Hp.
Qed.

Lemma store_identity_assign_output_path path (s : Store) :
  currentProjectId (assign_output_path path s) = currentProjectId s
  /\ Project.id <$> currentProject (assign_output_path path s)
     = Project.id <$> currentProject s
  /\ Project.id <$> projects (assign_output_path path s)
     = Project.id <$> projects s.
Proof.
  unfold assign_output_path.
  destruct (currentProject s) eqn:E; simpl; by rewrite ?E.
Qed.

Lemma identity_of_on_store (f : Store -> Store) (w : World) :
  currentProjectId (f (store w)) = currentProjectId (store w)
  /\ Project.id <$> currentProject (f (store w))
     = Project.id <$> currentProject (store w)
  /\ Project.id <$> projects (f (store w)) = Project.id <$> projects (store w) ->
  identity_of (on_store f w) = identity_of w.
Proof.
  intros (Hid & Hcp & Hps). unfold identity_of. simpl. by rewrite Hid, Hcp, Hps.
Qed.

Lemma frame_keeps_identity `{Host} (f : event) (w : World) :
  identity_of (handleMessage f w).1 = identity_of w.
Proof.
  destruct f as [es|data|data|data|data tc|data|tc|status text tc op|es|tag];
    cbn [handleMessage].
  - destruct es; [|done]. apply identity_of_on_store, store_identity_updateEmployees.
  - done.
  - apply identity_of_on_store, store_identity_updateEmployeeStatus.
  - done.
  - destruct tc as [c|]; [|done]. cbn [fst].
    rewrite identity_of_on_store by apply store_identity_updateCost. done.
  - unfold addToolUsage. by destruct (tool_log _).
  - destruct tc as [c|]; [|done]. apply identity_of_on_store, store_identity_updateCost.
  - set (w3 := if String.eqb status "completed" then _ else _).
    destruct (fetchProjects_call w3) as (k & -> & _). cbn [fst].
    transitivity (identity_of w3); [done|]. subst w3.
    assert (Hbase : identity_of
              (addMessage
                 [("type", VStr "system"); ("content", VStr text);
                  ("sent_from", VStr "System")]
                 (on_store (updateStatus status) w)) = identity_of w).
    { transitivity (identity_of (on_store (updateStatus status) w)); [done|].
      apply identity_of_on_store, store_identity_updateStatus. }
    destruct (String.eqb status "completed"); [destruct tc as [c|]|];
      try exact Hbase.
    rewrite identity_of_on_store by apply store_identity_assign_output_path.
    rewrite identity_of_on_store by apply store_identity_updateCost.
    exact Hbase.
  - apply identity_of_on_store, store_identity_updateEmployees.
  - done.
Qed.


Section PageRun.
Context `{Host}.

Lemma frame_starts (f : event) (w : World) :
  Forall is_refresh (handleMessage f w).2
  /\ length (handleMessage f w).2 = count_frames starts_refresh [f].
Proof.
  destruct f as [es|data|data|data|data tc|data|tc|status text tc op|es|tag];
    try (cbn [handleMessage]; split; [by constructor|done]).
  - cbn [handleMessage]. destruct es; (split; [by constructor|done]).
  - cbn [handleMessage]. destruct tc; (split; [by constructor|done]).
  - cbn [handleMessage]. destruct tc; (split; [by constructor|done]).
  - destruct (project_status_starts_refresh status text tc op w)
      as (k & w' & Hframe & _ & Hk).
    rewrite Hframe. split; [|done].
    constructor; [|constructor]. right. by exists k.
Qed.

Lemma fetchProjects_reply_frame (r : settled (list Project.t)) (w : World) :
  telemetry (store (fetchProjects_reply r w)) = telemetry (store w)
  /\ currentProjectId (store (fetchProjects_reply r w))
     = currentProjectId (store w)
  /\ currentProject (store (fetchProjects_reply r w)) = currentProject (store w)
  /\ now (fetchProjects_reply r w) = now w.
Proof.
  destruct r as [ps|e]; cbn [fetchProjects_reply]; [done|].
  unfold useNotification.error, useNotification.add. simpl. done.
Qed.

(** What the arrival of a reply does to the page. *)
Lemma settles_step (k : nat) (net : forall rq, settled (api.reply rq))
    (pg : Page) :
  Forall is_refresh pg.2 ->
  let pg' := page_step (settles k net) pg in
  Forall is_refresh pg'.2
  /\ length pg'.2 = length pg.2
  /\ (pg'.1 = pg.1 \/ pg'.1 = fetchProjects_reply (net api.getProjects) pg.1).
Proof.
  intros Hall pg'. subst pg'. cbn [page_step].
  destruct (pg.2 !! k) as [pr|] eqn:Hk; [|by split; [|split; [|left]]].
  assert (Hpr : is_refresh pr).
  { rewrite Forall_forall in Hall. apply Hall.
    by apply list_elem_of_lookup_2 in Hk. }
  destruct Hpr as [[r ->]|(cont & -> & Hcont)]; cbn [resume].
  - cbn [fst snd]. rewrite list_insert_id by done. by split; [|split; [|left]].
  - rewrite Hcont. cbn [fst snd].
    split; [|split; [by rewrite length_insert|by right]].
    apply Forall_insert; [done|]. left. by eexists.
Qed.

(** One input: what each sequence gains, what stays, what is started. *)
Lemma page_step_frame (x : page_input) (pg : Page) :
  Forall is_refresh pg.2 ->
  let pg' := page_step x pg in
  Forall is_refresh pg'.2
  /\ (exists ms ts ls us,
        telemetry (store pg'.1)
        = ((messages (store pg.1) ++ ms)%list,
           (thinkingLogs (store pg.1) ++ ts)%list,
           (llmCalls (store pg.1) ++ ls)%list,
           (toolUsages (store pg.1) ++ us)%list)
        /\ length ms = count_frames to_messages (frames_of [x])
        /\ length ts = count_frames to_thinkingLogs (frames_of [x])
        /\ length ls = count_frames to_llmCalls (frames_of [x])
        /\ length us = count_frames to_toolUsages (frames_of [x]))
  /\ (currentProjectId (store pg'.1) = currentProjectId (store pg.1)
      /\ Project.id <$> currentProject (store pg'.1)
         = Project.id <$> currentProject (store pg.1)
      /\ now pg'.1 = now pg.1)
  /\ length pg'.2
     = (length pg.2 + count_frames starts_refresh (frames_of [x]))%nat
  /\ (is_delivery x = true -> identity_of pg'.1 = identity_of pg.1).
Proof.
  intros Hall pg'. subst pg'. destruct x as [f|k net].
  - cbn [page_step frames_of omap].
    destruct (handleMessage f pg.1) as [w started] eqn:Hf. cbn [fst snd].
    destruct (frame_starts f pg.1) as [Hstarted Hcount].
    pose proof (frame_appends f pg.1) as Happ.
    pose proof (frame_keeps_identity f pg.1) as Hid.
    rewrite Hf in Hstarted, Hcount, Happ, Hid. cbn [fst snd] in *.
    split; [by apply Forall_app|]. split; [exact Happ|].
    split.
    { unfold identity_of in Hid. by injection Hid as -> -> _ _ _ _ ->. }
    split; [by rewrite length_app, Hcount|done].
  - destruct (settles_step k net pg Hall) as (Hall' & Hlen & Hpage).
    split; [exact Hall'|].
    assert (Hsame : telemetry (store (page_step (settles k net) pg).1)
                    = telemetry (store pg.1)
                    /\ currentProjectId (store (page_step (settles k net) pg).1)
                       = currentProjectId (store pg.1)
                    /\ currentProject (store (page_step (settles k net) pg).1)
                       = currentProject (store pg.1)
                    /\ now (page_step (settles k net) pg).1 = now pg.1).
    { destruct Hpage as [-> | ->]; [done|]. apply fetchProjects_reply_frame. }
    destruct Hsame as (Htel & Hcid & Hcp & Hnow).
    split.
    { exists [], [], [], []. rewrite Htel. unfold telemetry.
      by rewrite !app_nil_r. }
    split; [by rewrite Hcid, Hcp, Hnow|].
    split; [|done]. rewrite Hlen. cbn. lia.
Qed.

Lemma frames_of_cons (x : page_input) (xs : list page_input) :
  frames_of (x :: xs) = (frames_of [x] ++ frames_of xs)%list.
Proof. unfold frames_of. by destruct x. Qed.

Lemma count_frames_app (which : event -> bool) (l l' : list event) :
  count_frames which (l ++ l')
  = (count_frames which l + count_frames which l')%nat.
Proof. unfold count_frames. by rewrite List.filter_app, length_app. Qed.

Lemma page_run_frame (xs : list page_input) (pg : Page) :
  Forall is_refresh pg.2 ->
  let pg' := page_run xs pg in
  Forall is_refresh pg'.2
  /\ (exists ms ts ls us,
        telemetry (store pg'.1)
        = ((messages (store pg.1) ++ ms)%list,
           (thinkingLogs (store pg.1) ++ ts)%list,
           (llmCalls (store pg.1) ++ ls)%list,
           (toolUsages (store pg.1) ++ us)%list)
        /\ length ms = count_frames to_messages (frames_of xs)
        /\ length ts = count_frames to_thinkingLogs (frames_of xs)
        /\ length ls = count_frames to_llmCalls (frames_of xs)
        /\ length us = count_frames to_toolUsages (frames_of xs))
  /\ (currentProjectId (store pg'.1) = currentProjectId (store pg.1)
      /\ Project.id <$> currentProject (store pg'.1)
         = Project.id <$> currentProject (store pg.1)
      /\ now pg'.1 = now pg.1)
  /\ length pg'.2
     = (length pg.2 + count_frames starts_refresh (frames_of xs))%nat
  /\ (forallb is_delivery xs = true -> identity_of pg'.1 = identity_of pg.1).
Proof.
  revert pg. induction xs as [|x xs IH]; intros pg Hall.
  - cbn. split; [done|]. split.
    { exists [], [], [], []. unfold telemetry. by rewrite !app_nil_r. }
    split; [done|]. split; [lia|done].
  - destruct (page_step_frame x pg Hall)
      as (Hall1 & (ms & ts & ls & us & Htel & Hms & Hts & Hls & Hus)
          & (Hcid & Hcp & Hnow) & Hlen & Hid).
    destruct (IH (page_step x pg) Hall1)
      as (Hall2 & (ms' & ts' & ls' & us' & Htel' & Hms' & Hts' & Hls' & Hus')
          & (Hcid' & Hcp' & Hnow') & Hlen' & Hid').
    cbn [page_run fold_left]. fold (page_run xs (page_step x pg)).
    split; [exact Hall2|]. split.
    { unfold telemetry in Htel. injection Htel as Hm Ht Hl Hu.
      exists (ms ++ ms')%list, (ts ++ ts')%list, (ls ++ ls')%list,
        (us ++ us')%list.
      rewrite Htel', Hm, Ht, Hl, Hu, <- !app_assoc, !length_app.
      split; [done|].
      rewrite frames_of_cons, !count_frames_app. lia. }
    split; [by rewrite Hcid', Hcp', Hnow', Hcid, Hcp, Hnow|].
    split.
    { rewrite (frames_of_cons x xs), count_frames_app, Hlen', Hlen. lia. }
    intros Hdel. cbn [forallb] in Hdel. apply andb_true_iff in Hdel as [Hx Hxs].
    rewrite Hid' by done. by apply Hid.
Qed.
End PageRun.

(** X11.  Telemetry is append-only.  After any stream of frames, with the
    refreshes the frames start settling at any point in between, each of the
    four sequences is what it was, followed by what the stream added, and it
    has grown by the number of frames that feed it: [message] and
    [project_status] for the messages, [llm_call] for the feed, [tool_usage]
    for the tool records, and for the log [thinking] and those [tool_usage]
    frames whose log text can be built (the others throw after their tool
    record was pushed). *)
Theorem telemetry_is_append_only `{Host}
    (inputs : list page_input) (w : World) :
  let w' := (page_run inputs (w, [])).1 in
  let frames := frames_of inputs in
  exists ms ts ls us,
    (messages (store w') = (messages (store w) ++ ms)%list
     /\ thinkingLogs (store w') = (thinkingLogs (store w) ++ ts)%list
     /\ llmCalls (store w') = (llmCalls (store w) ++ ls)%list
     /\ toolUsages (store w') = (toolUsages (store w) ++ us)%list)
    /\ length ms = count_frames to_messages frames
    /\ length ts = count_frames to_thinkingLogs frames
    /\ length ls = count_frames to_llmCalls frames
    /\ length us = count_frames to_toolUsages frames.
Proof.
  intros w' frames. subst w' frames.
  destruct (page_run_frame inputs (w, []))
    as (_ & (ms & ts & ls & us & Htel & Hlen) & _); [constructor|].
  exists ms, ts, ls, us. split; [|exact Hlen].
  unfold telemetry in Htel. by injection Htel as -> -> -> ->.
Qed.

(** X12.  No stream of frames, with the refreshes the frames start
    settling at any point in between, moves the focus, changes the id of the
    focused project or touches the clock, and every [project_status] frame
    starts one refresh and no other frame starts anything.  Until a refresh
    settles, the frames also leave the ids and the order of the summary list,
    the notifications, the id counter and the timers as they were.  A
    refresh that settles is the one thing that replaces the list or adds a
    notification: the page is then [fetchProjects_reply] of the reply. *)
Theorem frames_keep_focus_list_and_queue `{Host}
    (inputs : list page_input) (w : World) :
  let pg := page_run inputs (w, []) in
  currentProjectId (store pg.1) = currentProjectId (store w)
  /\ Project.id <$> currentProject (store pg.1)
     = Project.id <$> currentProject (store w)
  /\ now pg.1 = now w
  /\ length pg.2 = count_frames starts_refresh (frames_of inputs)
  /\ (forallb is_delivery inputs = true ->
      Project.id <$> projects (store pg.1) = Project.id <$> projects (store w)
      /\ length (projects (store pg.1)) = length (projects (store w))
      /\ notifications pg.1 = notifications w
      /\ idCounter pg.1 = idCounter w
      /\ timers pg.1 = timers w)
  /\ (forall k net,
        let pg' := page_step (settles k net) pg in
        pg'.1 = pg.1
        \/ pg'.1 = fetchProjects_reply (net api.getProjects) pg.1).
Proof.
  intros pg. subst pg.
  destruct (page_run_frame inputs (w, []))
    as (Hall & _ & (Hcid & Hcp & Hnow) & Hlen & Hid); [constructor|].
  cbn [fst snd length] in *.
  split; [done|]. split; [done|]. split; [done|]. split; [done|]. split.
  - intros Hdel. specialize (Hid Hdel). unfold identity_of in Hid.
    injection Hid as _ _ Hps Hns Hc Hts _.
    repeat split; try done.
    rewrite <- (length_fmap Project.id), Hps. apply length_fmap.
  - intros k net. by destruct (settles_step k net _ Hall) as (_ & _ & Hpage).
Qed.

(** X13.  What the store keeps of a payload: [addMessage], [addThinking]
    and [addLLMCall] append one entry that has every field of the payload
    as it came, except [timestamp], which is the payload's own when it is
    truthy and the clock's otherwise, and for the last two [id], which is
    the clock plus the next random draw, as the addition of the platform
    rounds that sum. *)
Theorem entries_keep_their_payload `{Host} (payload : obj) (w : World) :
  (exists entry,
     messages (store (addMessage payload w))
     = (messages (store w) ++ [entry])%list
     /\ get "timestamp" entry = js_or (get "timestamp" payload) (now_iso w)
     /\ forall k, k <> "timestamp" -> get k entry = get k payload)
  /\ (exists entry,
        thinkingLogs (store (addThinking payload w))
        = (thinkingLogs (store w) ++ [entry])%list
        /\ get "timestamp" entry = js_or (get "timestamp" payload) (now_iso w)
        /\ get "id" entry
           = VNum (Number_add (inject_Z (now w)) (Math_random (draws w)))
        /\ forall k, k <> "timestamp" -> k <> "id" -> get k entry = get k payload)
  /\ (exists entry,
        llmCalls (store (addLLMCall payload w))
        = (llmCalls (store w) ++ [entry])%list
        /\ get "timestamp" entry = js_or (get "timestamp" payload) (now_iso w)
        /\ get "id" entry
           = VNum (Number_add (inject_Z (now w)) (Math_random (draws w)))
        /\ forall k, k <> "timestamp" -> k <> "id" -> get k entry = get k payload).
Proof.
  split; [|split].
  - eexists. split; [reflexivity|]. split; [apply get_set_eq|].
    intros k Hk. by apply get_set_ne.
  - eexists. split; [reflexivity|]. split; [|split].
    + rewrite get_set_eq. done.
    + rewrite get_set_ne by done. apply get_set_eq.
    + intros k Hk Hk'. by rewrite !get_set_ne.
  - eexists. split; [reflexivity|]. split; [|split].
    + rewrite get_set_eq. done.
    + rewrite get_set_ne by done. apply get_set_eq.
    + intros k Hk Hk'. by rewrite !get_set_ne.
Qed.

Lemma entries_keep_their_payload_witness :
  exists entry,
    messages (store (@addMessage plain_host
                       [("content", VStr "hello"); ("sent_from", VStr "Alice")]
                       (initial 0)))
    = [entry]
    /\ get "content" entry = VStr "hello".
Proof.
  destruct (@entries_keep_their_payload plain_host
              [("content", VStr "hello"); ("sent_from", VStr "Alice")]
              (initial 0)) as [(entry & Hm & _ & Hk) _].
  exists entry. split; [exact Hm|]. by rewrite Hk.
Defined.

(** ** The connection manager, continued *)

Section ConnectionMore.
Variable loc : Location.

Lemma flag_open_step (x : conn_input) (c : Conn) :
  is_closing x = false ->
  conn_ok c -> flag_open c -> flag_open (conn_step loc x c).
Proof.
  intros Hx [Hlive _] Hflag.
  destruct x as [projectId| |i|i|i|i]; cbn [conn_step]; [| | | | |done].
  - unfold connect, flag_open. cbn [isConnected]. intros Hup.
    unfold disconnect in Hup. by destruct (ws c).
  - unfold disconnect, flag_open. by destruct (ws c).
  - unfold onopen.
    destruct (sockets c !! i) as [[u []]|] eqn:Hi; try done.
    intros _. exists i, u. split.
    + by apply (Hlive i (mkSocket u CONNECTING)).
    + cbn [sockets]. apply list_lookup_insert_eq.
      eapply lookup_lt_Some; eassumption.
  - unfold onclose.
    destruct (sockets c !! i) as [[u []]|] eqn:Hi; done.
  - done.
Qed.

Lemma flag_open_ok (c : Conn) : flag_open c -> flag_ok c.
Proof.
  intros Hflag Hup. destruct (Hflag Hup) as (i & u & Hws & Hi).
  exists i, u, OPEN. split; [done|]. split; [done|]. by left.
Qed.

Lemma flag_ok_step (x : conn_input) (c : Conn) :
  conn_ok c -> flag_ok c -> flag_ok (conn_step loc x c).
Proof.
  intros [Hlive Hnone] Hflag.
  destruct x as [projectId| |i|i|i|i]; cbn [conn_step].
  - unfold connect, flag_ok. cbn [isConnected]. intros Hup.
    unfold disconnect in Hup. by destruct (ws c).
  - unfold disconnect, flag_ok. by destruct (ws c).
  - unfold onopen.
    destruct (sockets c !! i) as [[u []]|] eqn:Hi; try done.
    intros _. exists i, u, OPEN. split.
    + by apply (Hlive i (mkSocket u CONNECTING)).
    + split; [|by left]. cbn [sockets]. apply list_lookup_insert_eq.
      eapply lookup_lt_Some; eassumption.
  - unfold onclose.
    destruct (sockets c !! i) as [[u []]|] eqn:Hi; done.
  - done.
  - unfold peer_closes.
    destruct (sockets c !! i) as [[u []]|] eqn:Hi; try done.
    intros Hup. destruct (Hflag Hup) as (j & v & st & Hws & Hj & Hst).
    destruct (decide (i = j)) as [<-|Hne].
    + exists i, u, CLOSING. split; [done|]. split; [|by right].
      cbn [sockets]. apply list_lookup_insert_eq.
      eapply lookup_lt_Some; eassumption.
    + exists j, v, st. split; [done|]. split; [|done].
      cbn [sockets]. by rewrite list_lookup_insert_ne.
Qed.

Lemma conn_ok_step (x : conn_input) (c : Conn) :
  conn_ok c -> conn_ok (conn_step loc x c).
Proof.
  intros Hok. destruct x; cbn [conn_step].
  - by apply conn_ok_connect.
  - by apply conn_ok_disconnect.
  - by apply conn_ok_onopen.
  - by apply conn_ok_onclose.
  - done.
  - by apply conn_ok_peer_closes.
Qed.

Lemma flag_ok_run (xs : list conn_input) (c : Conn) :
  conn_ok c -> flag_ok c -> flag_ok (conn_run loc xs c).
Proof.
  revert c. induction xs as [|x xs IH]; intros c Hok Hflag; [done|].
  simpl. apply IH; [by apply conn_ok_step|by apply flag_ok_step].
Qed.

Lemma flag_open_run (xs : list conn_input) (c : Conn) :
  forallb (fun x => negb (is_closing x)) xs = true ->
  conn_ok c -> flag_open c -> flag_open (conn_run loc xs c).
Proof.
  revert c. induction xs as [|x xs IH]; intros c Hxs Hok Hflag; [done|].
  cbn [forallb] in Hxs. apply andb_true_iff in Hxs as [Hx Hxs].
  apply negb_true_iff in Hx.
  simpl. apply IH; [done|by apply conn_ok_step|by apply flag_open_step].
Qed.

End ConnectionMore.

Lemma connect_shape (loc : Location) (id : string) (c : Conn) :
  exists u,
    connect loc id c
    = mkConn (sockets (disconnect c) ++ [mkSocket u CONNECTING])%list
             (Some (length (sockets c))) false.
Proof.
  eexists. unfold connect, disconnect.
  destruct (ws c); cbn [sockets ws isConnected]; by rewrite ?length_alter.
Qed.

Lemma onopen_newest (l : list Socket) (u : string) (held : option nat) (b : bool) :
  onopen (length l) (mkConn (l ++ [mkSocket u CONNECTING])%list held b)
  = mkConn (l ++ [mkSocket u OPEN])%list held true.
Proof.
  unfold onopen. cbn [sockets ws].
  rewrite (list_lookup_middle l [] _ (length l)) by done.
  replace (length l) with (length l + 0)%nat at 1 by lia.
  by rewrite insert_app_r.
Qed.

Lemma disconnect_newest (l : list Socket) (sk : Socket) (b : bool) :
  disconnect (mkConn (l ++ [sk])%list (Some (length l)) b)
  = mkConn (l ++ [close sk])%list None false.
Proof.
  unfold disconnect. cbn [sockets ws].
  replace (length l) with (length l + 0)%nat by lia.
  by rewrite alter_app_r.
Qed.

Lemma onclose_closing (l rest : list Socket) (u : string)
    (held : option nat) (b : bool) :
  onclose (length l) (mkConn (l ++ mkSocket u CLOSING :: rest)%list held b)
  = mkConn (l ++ mkSocket u CLOSED :: rest)%list held false.
Proof.
  unfold onclose. cbn [sockets ws].
  rewrite (list_lookup_middle l rest _ (length l)) by done.
  replace (length l) with (length l + 0)%nat at 1 by lia.
  by rewrite insert_app_r.
Qed.

Lemma peer_closes_newest (l : list Socket) (u : string)
    (held : option nat) (b : bool) :
  peer_closes (length l) (mkConn (l ++ [mkSocket u OPEN])%list held b)
  = mkConn (l ++ [mkSocket u CLOSING])%list held b.
Proof.
  unfold peer_closes. cbn [sockets ws isConnected].
  rewrite (list_lookup_middle l [] _ (length l)) by done.
  replace (length l) with (length l + 0)%nat at 1 by lia.
  by rewrite insert_app_r.
Qed.

(** X14.  Whatever the owner calls and whatever the transport does, [send]
    hands data to the socket [ws] holds and to no other, and that socket is
    open, or closing because the peer has started the closing handshake and
    the close event is still to come; it is never a socket that is still
    connecting, which would make [WebSocket.send] throw, nor a closed one.
    When the peer has started no closing handshake the socket is open.  The
    closing case happens: connect, let the socket open, let the peer start to
    close it, and [send] still hands it the data. *)
Theorem send_only_through_an_open_socket
    (loc : Location) (inputs : list conn_input) :
  let c := conn_run loc inputs fresh in
  (forall i, send c = Some i ->
     ws c = Some i
     /\ exists u st,
          sockets c !! i = Some (mkSocket u st)
          /\ (st = OPEN \/ st = CLOSING)
          /\ (forallb (fun x => negb (is_closing x)) inputs = true ->
              st = OPEN))
  /\ (isConnected c = true -> exists i, send c = Some i)
  /\ (forall projectId : string,
        let i := length (sockets c) in
        let c' := conn_run loc [do_connect projectId; transport_open i;
                                transport_closing i] c in
        send c' = Some i
        /\ exists u, sockets c' !! i = Some (mkSocket u CLOSING)).
Proof.
  intros c.
  assert (Hflag : flag_ok c).
  { apply flag_ok_run; [apply conn_ok_fresh|done]. }
  split; [|split].
  - intros i Hsend. unfold send in Hsend.
    destruct (ws c) as [j|] eqn:Hws; [|done].
    destruct (isConnected c) eqn:Hup; [|done]. injection Hsend as ->.
    destruct (Hflag Hup) as (j & u & st & Hj & Hsock & Hst).
    rewrite Hws in Hj. injection Hj as <-. split; [done|].
    exists u, st. split; [done|]. split; [done|].
    intros Hquiet.
    assert (Hopen : flag_open c).
    { apply flag_open_run; [done|apply conn_ok_fresh|done]. }
    destruct (Hopen Hup) as (j & v & Hj & Hsock').
    rewrite Hws in Hj. injection Hj as <-. congruence.
  - intros Hup. destruct (Hflag Hup) as (i & u & st & Hws & _).
    exists i. unfold send. by rewrite Hws, Hup.
  - intros projectId i c'. subst c' i.
    assert (Hlen : length (sockets (disconnect c)) = length (sockets c)).
    { unfold disconnect. destruct (ws c); simpl; by rewrite ?length_alter. }
    unfold conn_run. cbn [fold_left conn_step].
    destruct (connect_shape loc projectId c) as [u ->].
    rewrite <- Hlen. clear Hlen.
    generalize (sockets (disconnect c)). intros l.
    rewrite onopen_newest, peer_closes_newest.
    cbn [send ws isConnected sockets]. split; [done|].
    exists u. by apply list_lookup_middle.
Qed.

Lemma send_only_through_an_open_socket_witness :
  let loc := mkLocation "http:" "localhost:8000" in
  let c := conn_run loc [do_connect "P1"; transport_open 0%nat] fresh in
  ws c = Some 0%nat
  /\ exists u, sockets c !! 0%nat = Some (mkSocket u OPEN).
Proof.
  intros loc c.
  destruct (send_only_through_an_open_socket loc
              [do_connect "P1"; transport_open 0%nat]) as [Hsend _].
  destruct (Hsend 0%nat eq_refl) as (Hws & u & st & Hsock & _ & Hopen).
  split; [exact Hws|]. exists u. rewrite <- (Hopen eq_refl). exact Hsock.
Defined.



(** ** The detail cursor, continued *)

Import LLMPanelRest.

(** What the rest of [fetchLLMCall] does with the reply. *)
Lemma fetchLLMCall_reply (projectId callId : string) (p : Panel) :
  projectId <> "" -> callId <> "" ->
  exists k,
    call (fetchLLMCall projectId callId) p
    = (Pending (GET (call_url projectId callId)) k,
       resetExpandState (set_panel_loading true p))
    /\ forall (reply : settled Response.t) (q : Panel),
         call (k reply) q
         = (Settled (fulfilled tt),
            set_panel_loading false
              match reply with
              | fulfilled (Response.mk true _ (fulfilled data)) => show data q
              | _ => q
              end).
Proof.
  intros Hp Hc. unfold fetchLLMCall.
  apply String.eqb_neq in Hp, Hc. rewrite Hp, Hc. simpl.
  eexists. split; [reflexivity|].
  by intros [[[] status [data|e]]|e] q.
Qed.

(** X16.  A request of [fetchLLMCall] never rejects and always ends with
    [loading] false, and its reply leaves the expand state alone.  On a 2xx
    reply whose body parses, the panel shows the record of the reply, and
    its index, its total and its two flags are those of the record.  On any
    other reply (a status that is not 2xx, a body that does not parse, a
    request that fails) the record on display, the index, the total and
    the flags are as they were when the reply came. *)
Theorem fetchLLMCall_settles
    (projectId callId : string) (p : Panel) :
  projectId <> "" -> callId <> "" ->
  exists k,
    call (fetchLLMCall projectId callId) p
    = (Pending (GET (call_url projectId callId)) k,
       resetExpandState (set_panel_loading true p))
    /\ forall (reply : settled Response.t) (q : Panel),
         exists q',
           call (k reply) q = (Settled (fulfilled tt), q')
           /\ panel_loading q' = false
           /\ expandedMsgs q' = expandedMsgs q
           /\ responseExpanded q' = responseExpanded q
           /\ match reply with
              | fulfilled (Response.mk true _ (fulfilled data)) =>
                  currentCall q' = Some (pulled data)
                  /\ currentIndex q' = LLMCallDetail.index data
                  /\ totalCount q' = LLMCallDetail.total_count data
                  /\ hasPrev q' = LLMCallDetail.has_prev data
                  /\ hasNext q' = LLMCallDetail.has_next data
              | _ =>
                  currentCall q' = currentCall q
                  /\ currentIndex q' = currentIndex q
                  /\ totalCount q' = totalCount q
                  /\ hasPrev q' = hasPrev q
                  /\ hasNext q' = hasNext q
              end.
Proof.
  intros Hp Hc.
  destruct (fetchLLMCall_reply projectId callId p Hp Hc) as (k & Hcall & Hreply).
  exists k. split; [exact Hcall|].
  intros reply q. eexists. split; [apply Hreply|].
  by destruct reply as [[[] status [data|e]]|e].
Qed.

Lemma fetchLLMCall_settles_witness :
  let d := LLMCallDetail.mk 3 9 true true [] in
  exists k q',
    call (fetchLLMCall "P1" "0003") mounted
    = (Pending (GET "/api/projects/P1/llm-calls/0003") k,
       resetExpandState (set_panel_loading true mounted))
    /\ call (k (fulfilled (Response.mk true 200 (fulfilled d)))) mounted
       = (Settled (fulfilled tt), q')
    /\ currentIndex q' = 3 /\ totalCount q' = 9.
Proof.
  intros d.
  destruct (fetchLLMCall_settles "P1" "0003" mounted) as (k & Hcall & Hreply);
    [done|done|].
  destruct (Hreply (fulfilled (Response.mk true 200 (fulfilled d))) mounted)
    as (q' & Hq' & _ & _ & _ & _ & Hindex & Htotal & _).
  exists k, q'. split; [exact Hcall|]. split; [exact Hq'|].
  split; [exact Hindex|exact Htotal].
Defined.

(** X17.  Back and forth: from a record whose flag says there is one
    before it, [goToPrev] asks for the ordinal before; when the server
    answers with that record and says there is one after it, [goToNext]
    asks for the ordinal the cursor started from. *)
Theorem prev_then_next_returns
    (projectId : string) (p : Panel) (d : LLMCallDetail.t) :
  projectId <> "" ->
  hasPrev p = true -> 1 < currentIndex p ->
  LLMCallDetail.index d = currentIndex p - 1 ->
  LLMCallDetail.has_next d = true ->
  LLMCallDetail.index d < LLMCallDetail.total_count d ->
  exists k q k' q',
    goToPrev projectId p
    = (resetExpandState (set_panel_loading true p),
       [Pending
          (GET (call_url projectId
                  (padStart 4 "0" (String_of_int (currentIndex p - 1))))) k])
    /\ call (k (fulfilled (Response.mk true 200 (fulfilled d))))
            (resetExpandState (set_panel_loading true p))
       = (Settled (fulfilled tt), q)
    /\ currentCall q = Some (pulled d)
    /\ goToNext projectId q
       = (q',
          [Pending
             (GET (call_url projectId
                     (padStart 4 "0" (String_of_int (currentIndex p))))) k']).
Proof.
  intros Hid Hflag Hidx Hd Hnext Htotal.
  unfold goToPrev. rewrite Hflag.
  replace (1 <? currentIndex p) with true by lia. cbn [andb].
  destruct (fetchLLMCall_reply projectId
              (padStart 4 "0" (String_of_int (currentIndex p - 1))) p Hid
              (padStart_nonempty _)) as (k & Hcall & Hreply).
  rewrite Hcall.
  pose proof (Hreply (fulfilled (Response.mk true 200 (fulfilled d)))
                (resetExpandState (set_panel_loading true p))) as Hq.
  set (q := set_panel_loading false _) in Hq.
  assert (Hcur : currentIndex q = currentIndex p - 1) by (by rewrite <- Hd).
  assert (Htot : totalCount q = LLMCallDetail.total_count d) by done.
  assert (Hnx : hasNext q = true) by (by rewrite <- Hnext).
  destruct (fetchLLMCall_reply projectId
              (padStart 4 "0" (String_of_int (currentIndex p))) q Hid
              (padStart_nonempty _)) as (k' & Hcall' & _).
  exists k, q, k', (resetExpandState (set_panel_loading true q)).
  split; [done|]. split; [done|]. split; [done|].
  unfold goToNext. rewrite Hnx, Hcur, Htot.
  replace (currentIndex p - 1 <? LLMCallDetail.total_count d) with true by lia.
  cbn [andb].
  replace (currentIndex p - 1 + 1) with (currentIndex p) by lia.
  by rewrite Hcall'.
Qed.

Lemma prev_then_next_returns_witness :
  let p := mkPanel false None 5 9 true true [] false in
  let d := LLMCallDetail.mk 4 9 true true [] in
  exists k q k' q',
    goToPrev "P1" p
    = (resetExpandState (set_panel_loading true p),
       [Pending (GET "/api/projects/P1/llm-calls/0004") k])
    /\ call (k (fulfilled (Response.mk true 200 (fulfilled d))))
            (resetExpandState (set_panel_loading true p))
       = (Settled (fulfilled tt), q)
    /\ currentCall q = Some (pulled d)
    /\ goToNext "P1" q
       = (q', [Pending (GET "/api/projects/P1/llm-calls/0005") k']).
Proof.
  intros p d.
  apply (prev_then_next_returns "P1" p d); done.
Defined.

Lemma router_record_has_no_count `{Host}
    (data : obj) (total_cost : option Q) (w : World) :
  exists latestCall,
    llmCalls (store (handleMessage (llm_call data total_cost) w).1)
    = (llmCalls (store w) ++ [latestCall])%list
    /\ get "index" latestCall = VUndefined
    /\ get "total_count" latestCall = VUndefined.
Proof.
  assert (Hfeed : exists latestCall,
            llmCalls (store (addLLMCall
                               [ ("agent_name", get "agent_name" data);
                                 ("model", get "model" data);
                                 ("prompt", get "prompt" data);
                                 ("response", get "response" data);
                                 ("cost", get "cost" data);
                                 ("tokens", get "tokens" data) ] w))
            = (llmCalls (store w) ++ [latestCall])%list
            /\ get "index" latestCall = VUndefined
            /\ get "total_count" latestCall = VUndefined).
  { eexists. split; [reflexivity|]. by split. }
  destruct Hfeed as (latestCall & Hfeed & Hindex & Htotal).
  exists latestCall. split; [|by split].
  destruct total_cost as [c|]; cbn [handleMessage fst]; [|exact Hfeed].
  change (store (on_store ?f ?w0)) with (f (store w0)).
  by rewrite llmCalls_updateCost.
Qed.

(** X18.  Following the feed: when an [llm_call] frame has made the feed
    longer, the records the router builds carry no ordinal, so the watcher
    counts with the length of the feed.  If the panel shows the latest
    record, or none, it moves to the new one: index and total are the length
    of the feed, there is no next, and there is a previous exactly when the
    feed has more than one record.  Otherwise the record on display, the
    index and the previous flag stay, the total becomes the length of the
    feed and there is a next when the index is below it.  A feed that has
    not grown, for one after [clearMessages], leaves the panel as it is. *)
Theorem watcher_follows_the_feed `{Host}
    (data : obj) (total_cost : option Q) (w : World) (p : Panel) :
  let calls := llmCalls (store (handleMessage (llm_call data total_cost) w).1) in
  let oldLen := length (llmCalls (store w)) in
  let newLen := Z.of_nat (length calls) in
  exists latestCall,
    last calls = Some latestCall
    /\ length calls = S oldLen
    /\ (isLatest p = true \/ currentCall p = None ->
        onCallsLength calls oldLen p
        = Some (mkPanel (panel_loading p) (Some (pushed latestCall))
                        newLen newLen (1 <? newLen) false
                        (expandedMsgs p) (responseExpanded p)))
    /\ (isLatest p = false -> currentCall p <> None ->
        onCallsLength calls oldLen p
        = Some (mkPanel (panel_loading p) (currentCall p) (currentIndex p)
                        newLen (hasPrev p) (currentIndex p <? newLen)
                        (expandedMsgs p) (responseExpanded p)))
    /\ (forall feed n, (length feed <= n)%nat -> onCallsLength feed n p = Some p)
    /\ onCallsLength (llmCalls (clearMessages (store w))) oldLen p = Some p.
Proof.
  intros calls oldLen newLen.
  destruct (router_record_has_no_count data total_cost w)
    as (latestCall & Hcalls & Hindex & Htotal).
  fold calls in Hcalls. exists latestCall.
  assert (Hlast : last calls = Some latestCall)
    by (rewrite Hcalls; apply last_snoc).
  assert (Hlen : length calls = S oldLen)
    by (rewrite Hcalls, length_app; simpl; subst oldLen; lia).
  assert (Hgrown : (oldLen <? length calls)%nat = true)
    by (apply Nat.ltb_lt; lia).
  assert (Hstill : forall feed n, (length feed <= n)%nat ->
                     onCallsLength feed n p = Some p).
  { intros feed n Hle. unfold onCallsLength.
    destruct (last feed); [|done].
    replace (n <? length feed)%nat with false; [done|].
    symmetry. apply Nat.ltb_ge. lia. }
  split; [done|]. split; [done|]. split; [|split; [|split]].
  - intros Hfollow. unfold onCallsLength.
    rewrite Hlast, Hgrown, Hindex, Htotal. cbn [count_or truthy].
    replace (isLatest p || negb (bool_decide (is_Some (currentCall p))))
      with true; [done|].
    destruct Hfollow as [-> | ->]; [done|].
    rewrite bool_decide_false by (by intros [? ?]).
    by rewrite orb_true_r.
  - intros Hbehind Hshown. unfold onCallsLength.
    rewrite Hlast, Hgrown, Htotal, Hbehind. cbn [count_or truthy].
    rewrite bool_decide_true; [done|].
    destruct (currentCall p); [by eexists|done].
  - exact Hstill.
  - apply Hstill. simpl. lia.
Qed.

Lemma watcher_follows_the_feed_witness :
  let w := initial 0 in
  let calls :=
    llmCalls (store (@handleMessage plain_host
                       (llm_call [("model", VStr "gpt")] None) w).1) in
  exists latestCall,
    onCallsLength calls 0 mounted
    = Some (mkPanel false (Some (pushed latestCall)) 1 1 false false [] false).
Proof.
  intros w calls.
  destruct (@watcher_follows_the_feed plain_host [("model", VStr "gpt")] None
              w mounted) as (latestCall & _ & _ & Hfollow & _).
  exists latestCall. apply Hfollow. by right.
Defined.

(** X19.  [toggleMessage(idx)] flips whether [idx] is expanded and leaves
    every other index as it is, so toggling twice gives back the same set;
    it never lists an index twice; and it touches nothing else of the
    panel.  Starting a request collapses everything. *)
Theorem toggleMessage_flips_one_index (idx : nat) (p : Panel) :
  let p' := toggleMessage idx p in
  (idx ∈ expandedMsgs p' <-> idx ∉ expandedMsgs p)
  /\ (forall j, j <> idx -> j ∈ expandedMsgs p' <-> j ∈ expandedMsgs p)
  /\ (forall j, j ∈ expandedMsgs (toggleMessage idx p') <-> j ∈ expandedMsgs p)
  /\ (NoDup (expandedMsgs p) -> NoDup (expandedMsgs p'))
  /\ (currentCall p' = currentCall p /\ currentIndex p' = currentIndex p
      /\ totalCount p' = totalCount p /\ hasPrev p' = hasPrev p
      /\ hasNext p' = hasNext p /\ responseExpanded p' = responseExpanded p
      /\ panel_loading p' = panel_loading p)
  /\ expandedMsgs (resetExpandState p') = []
  /\ toggleResponse (toggleResponse p) = p.
Proof.
  intros p'.
  assert (Hflip : forall q, idx ∈ expandedMsgs (toggleMessage idx q)
                            <-> idx ∉ expandedMsgs q).
  { intros q. unfold toggleMessage. cbn [expandedMsgs].
    destruct (decide (idx ∈ expandedMsgs q)) as [Hin|Hout].
    - rewrite list_elem_of_filter. tauto.
    - rewrite elem_of_app, list_elem_of_singleton. tauto. }
  assert (Hkeep : forall q j, j <> idx ->
                    j ∈ expandedMsgs (toggleMessage idx q) <-> j ∈ expandedMsgs q).
  { intros q j Hne. unfold toggleMessage. cbn [expandedMsgs].
    destruct (decide (idx ∈ expandedMsgs q)) as [Hin|Hout].
    - rewrite list_elem_of_filter. tauto.
    - rewrite elem_of_app, list_elem_of_singleton. tauto. }
  split; [apply Hflip|]. split; [apply Hkeep|]. split; [|split; [|split]].
  - intros j. destruct (decide (j = idx)) as [->|Hne].
    + rewrite Hflip. subst p'. rewrite Hflip.
      destruct (decide (idx ∈ expandedMsgs p)); tauto.
    + rewrite Hkeep by done. by apply Hkeep.
  - intros Hnd. subst p'. unfold toggleMessage. cbn [expandedMsgs].
    destruct (decide (idx ∈ expandedMsgs p)) as [Hin|Hout].
    + by apply NoDup_filter.
    + apply NoDup_app. split; [done|]. split; [|apply NoDup_singleton].
      intros j Hj ->%list_elem_of_singleton. done.
  - done.
  - split; [done|]. destruct p. unfold toggleResponse. simpl.
    by rewrite negb_involutive.
Qed.

(** ** The components around the stores *)

Import ProjectPage.



(** X21.  Leaving the project page: [onUnmounted] drops the socket, the
    focus and the telemetry and keeps the list of projects and the
    notifications with their timers.  When at most the held socket was
    live, none is live afterwards and nothing can be sent.  Running it
    again changes nothing. *)
Theorem unmounted_releases_the_page (a : App) :
  conn_ok (conn a) ->
  let a' := unmounted a in
  ws (conn a') = None /\ isConnected (conn a') = false
  /\ open_count (conn a') = 0%nat /\ send (conn a') = None
  /\ length (sockets (conn a')) = length (sockets (conn a))
  /\ currentProject (store (world a')) = None
  /\ currentProjectId (store (world a')) = None
  /\ telemetry (store (world a')) = ([], [], [], [])
  /\ projects (store (world a')) = projects (store (world a))
  /\ notifications (world a') = notifications (world a)
  /\ timers (world a') = timers (world a)
  /\ unmounted a' = a'.
Proof.
  intros Hok a'. subst a'. unfold unmounted.
  assert (Hdis : ws (disconnect (conn a)) = None
                 /\ isConnected (disconnect (conn a)) = false)
    by (unfold disconnect; by destruct (ws (conn a))).
  destruct Hdis as [Hws Hflag].
  unfold on_world, on_conn, set_world, set_conn.
  cbn [world conn route_id pushes createProjectVisible configForm form
       modal_loading].
  split; [done|]. split; [done|].
  split; [by apply disconnect_open_count|].
  split; [unfold send; by rewrite Hws|].
  split.
  { unfold disconnect. destruct (ws (conn a)); simpl; by rewrite ?length_alter. }
  repeat (split; [done|]).
  by rewrite disconnect_idempotent.
Qed.

Lemma unmounted_releases_the_page_witness :
  let a := set_conn (conn_run (mkLocation "http:" "localhost")
                       [do_connect "P1"; transport_open 0] fresh)
                    (on_route "P1") in
  open_count (conn a) = 1%nat /\ open_count (conn (unmounted a)) = 0%nat.
Proof.
  intros a. split; [reflexivity|].
  destruct (unmounted_releases_the_page a) as (_ & _ & Hnone & _).
  - split.
    + intros [|[|i]] sk Hsk Hlive; [done|done|done].
    + done.
  - exact Hnone.
Defined.

(** X22.  [handleStart] saves the form before it starts the project, and
    starts it only when the save went through: a rejected update, or a
    rejected reload of the focused project after it, rejects the handler
    with that error and no start request is sent.  The start goes to the
    project of the route as it is after the waits. *)
Theorem handleStart_saves_before_it_starts
    (net : nat -> forall rq, settled (api.reply rq))
    (meanwhile : nat -> App -> App) (a : App) :
  let id := route_id a in
  let data := config_data (configForm a) in
  let saved := meanwhile 0%nat a in
  let log := journal net meanwhile 0 handleStart a in
  let r := run net meanwhile 0 handleStart a in
  (forall e, net 0%nat (api.updateProject id data) = rejected e ->
     r.1 = rejected e /\ log = [api.updateProject id data])
  /\ (forall reply, net 0%nat (api.updateProject id data) = fulfilled reply ->
        currentProjectId (store (world saved)) <> Some id ->
        log = [api.updateProject id data; api.startProject (route_id saved)])
  /\ (forall reply e,
        net 0%nat (api.updateProject id data) = fulfilled reply ->
        currentProjectId (store (world saved)) = Some id ->
        net 1%nat (api.getProject id) = rejected e ->
        r.1 = rejected e
        /\ log = [api.updateProject id data; api.getProject id])
  /\ (forall reply p,
        net 0%nat (api.updateProject id data) = fulfilled reply ->
        currentProjectId (store (world saved)) = Some id ->
        net 1%nat (api.getProject id) = fulfilled p ->
        log = [api.updateProject id data; api.getProject id;
               api.startProject
                 (route_id
                    (meanwhile 1%nat
                       (on_world (on_store (set_loading true)) saved)))]).
Proof.
  intros id data saved log r. subst id data saved log r.
  unfold handleStart, store_action, updateProject.
  split; [|split; [|split]].
  - intros e He. simpl. by rewrite He.
  - intros reply Hreply Hfocus. simpl. rewrite Hreply. simpl.
    destruct (decide _) as [Heq|_]; [done|]. simpl.
    by destruct (net 1%nat (api.startProject _)).
  - intros reply e Hreply Hfocus He. simpl. rewrite Hreply. simpl.
    destruct (decide _) as [_|Hne]; [|done]. simpl.
    by rewrite He.
  - intros reply p Hreply Hfocus Hp. simpl. rewrite Hreply. simpl.
    destruct (decide _) as [_|Hne]; [|done]. simpl.
    rewrite Hp. simpl.
    by destruct (net 2%nat (api.startProject _)).
Qed.

Lemma handleStart_saves_before_it_starts_witness :
  journal offline (fun _ a => a) 0 handleStart (on_route "P1")
  = [api.updateProject "P1" (config_data defaults)].
Proof.
  destruct (handleStart_saves_before_it_starts offline (fun _ a => a)
              (on_route "P1")) as (Hfail & _).
  by destruct (Hfail (mkError "Failed to fetch") eq_refl) as [_ Hlog].
Defined.

(** X23.  [handleDelete] does nothing when the user declines.  When the
    user confirms and the request is rejected it rejects and stays on the
    page; when the request is fulfilled it goes to the home page, once,
    after the list has been asked for again, whether that refresh succeeds
    or not.  Nothing else navigates during the waits. *)
Theorem handleDelete_leaves_only_after_deleting
    (net : nat -> forall rq, settled (api.reply rq))
    (meanwhile : nat -> App -> App) (a : App) :
  (forall n b, pushes (meanwhile n b) = pushes b) ->
  let id := route_id a in
  let r := run net meanwhile 0 (handleDelete true) a in
  let log := journal net meanwhile 0 (handleDelete true) a in
  run net meanwhile 0 (handleDelete false) a = (fulfilled tt, a)
  /\ journal net meanwhile 0 (handleDelete false) a = []
  /\ (forall e, net 0%nat (api.deleteProject id) = rejected e ->
        r.1 = rejected e /\ pushes r.2 = pushes a
        /\ log = [api.deleteProject id])
  /\ (forall reply, net 0%nat (api.deleteProject id) = fulfilled reply ->
        r.1 = fulfilled tt /\ pushes r.2 = (pushes a ++ ["/"])%list
        /\ log = [api.deleteProject id; api.getProjects]).
Proof.
  intros Hquiet id r log. subst id r log.
  split; [done|]. split; [done|]. split.
  - intros e He. simpl. rewrite He. simpl. by rewrite Hquiet.
  - intros reply Hreply. simpl. rewrite Hreply. simpl.
    destruct (decide _); simpl;
      destruct (net 1%nat api.getProjects); simpl;
      repeat (rewrite Hquiet; simpl); done.
Qed.

Lemma handleDelete_leaves_only_after_deleting_witness :
  pushes (run (serving (sample_project "P1")) (fun _ a => a) 0
              (handleDelete true) (on_route "P1")).2
  = ["/"].
Proof.
  destruct (handleDelete_leaves_only_after_deleting
              (serving (sample_project "P1")) (fun _ a => a) (on_route "P1"))
    as (_ & _ & _ & Hdone); [done|].
  by destruct (Hdone VNull eq_refl) as (_ & Hpush & _).
Defined.

(** X24.  [startProject] of the sidebar never rejects and sends one
    request.  When it is fulfilled the sidebar goes to the page of the
    project unless that project is the focus when the reply comes; when it
    is rejected the sidebar goes nowhere, and the store has notified the
    error.  Nothing else navigates during the wait. *)
Theorem sidebar_start_goes_to_the_project
    (net : nat -> forall rq, settled (api.reply rq))
    (meanwhile : nat -> App -> App) (id : string) (a : App) :
  (forall n b, pushes (meanwhile n b) = pushes b) ->
  let back := meanwhile 0%nat a in
  let r := run net meanwhile 0 (Sidebar.startProject id) a in
  r.1 = fulfilled tt
  /\ journal net meanwhile 0 (Sidebar.startProject id) a = [api.startProject id]
  /\ (forall e, net 0%nat (api.startProject id) = rejected e ->
        pushes r.2 = pushes a
        /\ notifications (world r.2)
           = (notifications (world back)
                ++ [Notification.mk (S (idCounter (world back)))
                                    "启动项目失败" "error"
                                    (now (world back))])%list)
  /\ (forall reply, net 0%nat (api.startProject id) = fulfilled reply ->
        pushes r.2
        = if decide (currentProjectId (store (world back)) = Some id)
          then pushes a
          else (pushes a ++ [("/project/" ++ id)%string])%list).
Proof.
  intros Hquiet back r. subst back r. simpl.
  destruct (net 0%nat (api.startProject id)) as [reply|e]; simpl.
  - destruct (decide (Some id <> _)) as [Hne|Heq]; simpl;
      (split; [done|]); (split; [done|]); (split; [done|]);
      intros ? _; destruct (decide (_ = Some id)) as [Heq'|Hne'];
      rewrite ?Hquiet; try done.
  - rewrite Hquiet. repeat split; intros; by simplify_eq.
Qed.

Lemma sidebar_start_goes_to_the_project_witness :
  pushes (run (serving (sample_project "P1")) (fun _ a => a) 0
              (Sidebar.startProject "P1") (on_route "")).2
  = ["/project/P1"].
Proof.
  destruct (sidebar_start_goes_to_the_project
              (serving (sample_project "P1")) (fun _ a => a) "P1"
              (on_route "")) as (_ & _ & _ & Hdone); [done|].
  exact (Hdone VNull eq_refl).
Defined.

(** X25.  [handleSubmit] of the creation dialog never rejects and always
    ends with [loading] false.  It sends the form as it is when the button
    is pressed.  When the project is created the dialog is hidden, the form
    is back to its defaults and the page of the new project is opened, once;
    when the request is rejected the dialog stays as it is, with what the
    user typed, and nothing is opened. *)
Theorem handleSubmit_closes_only_on_success
    (net : nat -> forall rq, settled (api.reply rq))
    (meanwhile : nat -> App -> App) (a : App) :
  (forall n b, pushes (meanwhile n b) = pushes b) ->
  let data := CreateProjectModal.form_data (form a) in
  let back := meanwhile 0%nat (set_modal_loading true a) in
  let r := run net meanwhile 0 CreateProjectModal.handleSubmit a in
  let log := journal net meanwhile 0 CreateProjectModal.handleSubmit a in
  r.1 = fulfilled tt
  /\ modal_loading r.2 = false
  /\ (forall e, net 0%nat (api.createProject data) = rejected e ->
        log = [api.createProject data]
        /\ pushes r.2 = pushes a
        /\ form r.2 = form back
        /\ createProjectVisible r.2 = createProjectVisible back)
  /\ (forall project, net 0%nat (api.createProject data) = fulfilled project ->
        log = [api.createProject data; api.getProjects]
        /\ pushes r.2
           = (pushes a ++ [("/project/" ++ Project.id project)%string])%list
        /\ form r.2 = CreateProjectModal.blank
        /\ createProjectVisible r.2 = false).
Proof.
  intros Hquiet data back r log. subst data back r log. simpl.
  destruct (net 0%nat (api.createProject _)) as [project|e]; simpl.
  - destruct (net 1%nat api.getProjects) as [ps|e]; simpl;
      repeat (rewrite Hquiet; simpl);
      repeat split; intros; by simplify_eq.
  - rewrite Hquiet. repeat split; intros; by simplify_eq.
Qed.

Lemma handleSubmit_closes_only_on_success_witness :
  let r := run (serving (sample_project "P7")) (fun _ a => a) 0
               CreateProjectModal.handleSubmit
               (useModalStore.showCreateProject (on_route "")) in
  pushes r.2 = ["/project/P7"] /\ createProjectVisible r.2 = false.
Proof.
  intros r.
  destruct (handleSubmit_closes_only_on_success
              (serving (sample_project "P7")) (fun _ a => a)
              (useModalStore.showCreateProject (on_route "")))
    as (_ & _ & _ & Hdone); [done|].
  destruct (Hdone (sample_project "P7") eq_refl) as (_ & Hpush & _ & Hhidden).
  split; [exact Hpush | exact Hhidden].
Defined.

(** ** Errors of the API service *)

(** X26.  What [request] throws for a non-2xx response, by the body of the
    response.  It is [Error('Unknown error')] when the body is not JSON;
    [Error(detail)] when the body is an object whose [detail] is a non-empty
    string; [Error('HTTP ' + status)], whose message is not empty, when
    [detail] is absent or falsy and when the body is a boolean, a number, a
    string or an array.  It is a TypeError, not this [Error], when the body
    is [null] and when [detail] is an object with a property named
    [toString].  The message is empty when [detail] is an empty array. *)
Theorem request_error_by_body `{Host} (status : Z) :
  let thrown := fun body => api.request_error (api.mkFailure status body) in
  let fallback :=
    mkError ("HTTP " ++ NilZero.string_of_int (Z.to_int status)) in
  thrown None = mkError "Unknown error"
  /\ (forall (o : obj) (d : string),
        get "detail" o = VStr d -> d <> "" ->
        thrown (Some (VObj o)) = mkError d)
  /\ (forall o : obj,
        truthy (get "detail" o) = false -> thrown (Some (VObj o)) = fallback)
  /\ (forall b, thrown (Some (VBool b)) = fallback)
  /\ (forall q, thrown (Some (VNum q)) = fallback)
  /\ (forall t, thrown (Some (VStr t)) = fallback)
  /\ (forall items, thrown (Some (VArr items)) = fallback)
  /\ fallback <> mkError ""
  /\ thrown (Some VNull) = TypeError
  /\ (forall o o' : obj,
        get "detail" o = VObj o' -> has_own "toString" o' = true ->
        thrown (Some (VObj o)) = TypeError)
  /\ (forall o : obj,
        get "detail" o = VArr [] -> thrown (Some (VObj o)) = mkError "").
Proof.
  intros thrown fallback. subst thrown fallback.
  unfold api.request_error. cbn [api.body api.http_status api.detail_of].
  split; [done|]. split.
  { intros o d Hd Hne. rewrite Hd. unfold js_or. cbn [truthy].
    apply String.eqb_neq in Hne. by rewrite Hne. }
  split.
  { intros o Hfalsy. unfold js_or. by rewrite Hfalsy. }
  split; [done|]. split; [done|]. split; [done|]. split; [done|].
  split; [done|]. split; [done|]. split.
  { intros o o' Hd Hown. rewrite Hd. unfold js_or. cbn [truthy ToString].
    by rewrite Hown. }
  intros o Hd. by rewrite Hd.
Qed.

(** ** A close event that comes late *)

(** X27.  [isConnected] can be false while the held socket is open: the
    handlers of a replaced socket stay attached.  From any state of the
    instance: connect, let the socket open, connect again, let the second
    socket open, and let the close event of the first arrive.  The second
    socket is then open and held, the first is closed, and [isConnected] is
    false, so [send] drops what it is given. *)
Theorem late_close_lowers_the_flag
    (loc : Location) (idA idB : string) (c : Conn) :
  let i := length (sockets c) in
  let c' := conn_run loc [do_connect idA; transport_open i; do_connect idB;
                          transport_open (S i); transport_close i] c in
  exists uA uB,
    sockets c'
    = (sockets (disconnect c) ++ [mkSocket uA CLOSED; mkSocket uB OPEN])%list
    /\ ws c' = Some (S i)
    /\ sockets c' !! S i = Some (mkSocket uB OPEN)
    /\ isConnected c' = false
    /\ send c' = None.
Proof.
  intros i c'. subst c'.
  assert (Hlen : length (sockets (disconnect c)) = i).
  { unfold disconnect. destruct (ws c); simpl; by rewrite ?length_alter. }
  unfold conn_run. cbn [fold_left conn_step].
  destruct (connect_shape loc idA c) as [uA ->].
  subst i. rewrite <- Hlen. clear Hlen.
  generalize (sockets (disconnect c)). intros l.
  rewrite onopen_newest.
  destruct (connect_shape loc idB (mkConn (l ++ [mkSocket uA OPEN])%list
                                          (Some (length l)) true)) as [uB ->].
  rewrite disconnect_newest. cbn [sockets close state url].
  rewrite length_app. cbn [length].
  replace (l ++ [mkSocket uA CLOSING] ++ [mkSocket uB CONNECTING])%list
    with ((l ++ [mkSocket uA CLOSING]) ++ [mkSocket uB CONNECTING])%list
    by (by rewrite <- app_assoc).
  replace (S (length l)) with (length (l ++ [mkSocket uA CLOSING])%list)
    by (rewrite length_app; simpl; lia).
  rewrite onopen_newest.
  rewrite <- app_assoc. cbn [app].
  rewrite length_app. cbn [length].
  rewrite onclose_closing.
  exists uA, uB. cbn [sockets ws isConnected send].
  split; [done|]. split; [f_equal; lia|]. split; [|done].
  replace (l ++ [mkSocket uA CLOSED; mkSocket uB OPEN])%list
    with ((l ++ [mkSocket uA CLOSED]) ++ [mkSocket uB OPEN])%list
    by (by rewrite <- app_assoc).
  apply list_lookup_middle. rewrite length_app. simpl. lia.
Qed.
